(** * Rackster event pipeline: dispatch hub, notifier and bot adapter

    A shallow embedding of [src/events/event-types.ts],
    [src/events/event-manager.ts], the event notifier and the bot event
    registry, with the properties of the pipeline stated over it.

    Conventions of the embedding.
    - A JavaScript [number] that counts or indexes (history capacity, the
      [limit] of a query, [Date.now()] in milliseconds) is a [Z].  A
      [number] that measures (a coordinate, a health value) is a
      [JSNumber]: a rational (every finite double is one, and [Math.floor]
      is exact on them), [NaN] or an infinity.
    - A listener or filter is a function object; the hub only compares
      them by identity, so they are handles ([nat]) and what they do when
      called is a parameter of the development.
    - A [Set] is the list of its entries in insertion order, with the slots
      of deleted entries kept and emptied, as ECMAScript defines
      [[SetData]]: that is what makes iteration over a set that changes
      under the loop well defined.
    - A loop over a set that may grow under it need not end; such loops
      take fuel, and a run that exhausts it has no result.
    - Filters are predicates: they answer and do nothing else.  A listener
      may call the operations of the hub, except [emit] itself, and may
      throw.
    - [emit] is an [async] function.  [emit_async] is the function as it
      is written: it is suspended at every [await], other code may call
      the hub until it is resumed, and [console.error] may itself throw on
      the value it is given.  [emit] is the same function in a run where
      no other code calls the hub while it is suspended and where
      [console.error] returns ([emit_async_undisturbed]). *)

From Stdlib Require Import ZArith QArith Qround List String Bool Lia.
From stdpp Require Import base option list gmap strings.
Import ListNotations.

Local Open Scope string_scope.
Local Open Scope Z_scope.
Local Open Scope list_scope.

(* ===================================================================== *)
(** * Event model ([event-types.ts]) *)
(* ===================================================================== *)

Inductive EventSeverity := INFO | WARNING | ERROR | SUCCESS.

#[global] Instance EventSeverity_eq_dec : EqDecision EventSeverity.
Proof. solve_decision. Defined.

(** A [number] that measures: a finite double, [NaN], [Infinity] or
    [-Infinity]. *)
Inductive JSNumber :=
| JSFinite (q : Q)
| JSNaN
| JSInfinity (negative : bool).

Bind Scope Q_scope with JSNumber.
Coercion JSFinite : Q >-> JSNumber.

(** [unknown] values that reach a payload. *)
#[warnings="-register-all"]
Inductive JSValue :=
| VUndefined
| VNull
| VBool (b : bool)
| VNum (n : JSNumber)
| VStr (s : string)
| VObj (fields : list (string * JSValue)).

(** [Record<string, unknown>]: the keys in the order the literal lists
    them. *)
Definition Payload := list (string * JSValue).

(** [BaseEvent]. *)
Record MinecraftEvent := mkEvent {
  type : string;
  timestamp : Z;
  severity : EventSeverity;
  description : string;
  data : option Payload
}.

Record Vec3 := mkVec3 { vx : JSNumber; vy : JSNumber; vz : JSNumber }.

(** [obj.key]: a missing key, or a key of something that is not an
    object, reads as [undefined]. *)
Fixpoint assoc (key : string) (fields : list (string * JSValue)) : JSValue :=
  match fields with
  | [] => VUndefined
  | (k, v) :: rest => if String.eqb k key then v else assoc key rest
  end.

Definition get_field (key : string) (v : JSValue) : JSValue :=
  match v with
  | VObj fields => assoc key fields
  | _ => VUndefined
  end.

(** Truthiness, as [if (v)] and [v || w] use it: among the numbers, 0
    and [NaN] are falsy. *)
Definition truthy (v : JSValue) : bool :=
  match v with
  | VUndefined | VNull => false
  | VBool b => b
  | VNum (JSFinite q) => negb (Qeq_bool q 0)
  | VNum JSNaN => false
  | VNum (JSInfinity _) => true
  | VStr s => negb (String.eqb s "")
  | VObj _ => true
  end.

Definition is_undefined (v : JSValue) : bool :=
  match v with VUndefined => true | _ => false end.

(* ===================================================================== *)
(** * JavaScript [Set] *)
(* ===================================================================== *)

(** [[SetData]]: [Some x] is a live entry, [None] a slot emptied by
    [delete] or [clear]. *)
Definition JSSet := list (option nat).

Definition set_has (x : nat) (s : JSSet) : bool :=
  existsb (fun e => match e with Some y => Nat.eqb x y | None => false end) s.

Definition set_add (x : nat) (s : JSSet) : JSSet :=
  if set_has x s then s else s ++ [Some x].

Definition set_delete (x : nat) (s : JSSet) : JSSet :=
  map (fun e => match e with
                | Some y => if Nat.eqb x y then None else Some y
                | None => None
                end) s.

Definition set_clear (s : JSSet) : JSSet := map (fun _ => None) s.

(** The members, in insertion order. *)
Definition set_live (s : JSSet) : list nat := omap (fun e => e) s.

(* ===================================================================== *)
(** * Dispatch hub ([event-manager.ts]) *)
(* ===================================================================== *)

(** [listeners] maps a kind to a [Set] object.  The object is shared: the
    map holds a reference, and [emit] iterates the object it fetched even
    if the map drops it meanwhile.  So the sets live in [heap] and the map
    holds addresses. *)
Record EventManager := mkManager {
  listeners : gmap string nat;
  heap : list JSSet;
  globalListeners : JSSet;
  filters : JSSet;
  eventHistory : list MinecraftEvent;
  maxHistorySize : Z
}.

(** Field initialisers of the class. *)
Definition new_EventManager : EventManager :=
  {| listeners := ∅; heap := []; globalListeners := []; filters := [];
     eventHistory := []; maxHistorySize := 1000 |}.

Definition with_listeners (f : gmap string nat -> gmap string nat) (m : EventManager) :=
  {| listeners := f (listeners m); heap := heap m;
     globalListeners := globalListeners m; filters := filters m;
     eventHistory := eventHistory m; maxHistorySize := maxHistorySize m |}.

Definition with_heap (f : list JSSet -> list JSSet) (m : EventManager) :=
  {| listeners := listeners m; heap := f (heap m);
     globalListeners := globalListeners m; filters := filters m;
     eventHistory := eventHistory m; maxHistorySize := maxHistorySize m |}.

Definition with_globalListeners (f : JSSet -> JSSet) (m : EventManager) :=
  {| listeners := listeners m; heap := heap m;
     globalListeners := f (globalListeners m); filters := filters m;
     eventHistory := eventHistory m; maxHistorySize := maxHistorySize m |}.

Definition with_filters (f : JSSet -> JSSet) (m : EventManager) :=
  {| listeners := listeners m; heap := heap m;
     globalListeners := globalListeners m; filters := f (filters m);
     eventHistory := eventHistory m; maxHistorySize := maxHistorySize m |}.

Definition with_eventHistory (f : list MinecraftEvent -> list MinecraftEvent)
    (m : EventManager) :=
  {| listeners := listeners m; heap := heap m;
     globalListeners := globalListeners m; filters := filters m;
     eventHistory := f (eventHistory m); maxHistorySize := maxHistorySize m |}.

(** [setMaxHistorySize]: the field is assigned, nothing else. *)
Definition setMaxHistorySize (size : Z) (m : EventManager) : EventManager :=
  {| listeners := listeners m; heap := heap m;
     globalListeners := globalListeners m; filters := filters m;
     eventHistory := eventHistory m; maxHistorySize := size |}.

(** [on]: the wildcard goes to [globalListeners]; a kind seen for the
    first time gets a fresh [Set]. *)
Definition on (eventType : string) (listener : nat) (m : EventManager) : EventManager :=
  if String.eqb eventType "*" then with_globalListeners (set_add listener) m
  else
    let m1 :=
      match listeners m !! eventType with
      | Some _ => m
      | None =>
          with_listeners (insert eventType (length (heap m)))
            (with_heap (fun h => h ++ [[]]) m)
      end in
    match listeners m1 !! eventType with
    | Some a => with_heap (alter (set_add listener) a) m1
    | None => m1
    end.

(** [off]: [this.listeners.get(eventType)?.delete(listener)]. *)
Definition off (eventType : string) (listener : nat) (m : EventManager) : EventManager :=
  if String.eqb eventType "*" then with_globalListeners (set_delete listener) m
  else
    match listeners m !! eventType with
    | Some a => with_heap (alter (set_delete listener) a) m
    | None => m
    end.

Definition addFilter (filter : nat) (m : EventManager) : EventManager :=
  with_filters (set_add filter) m.

Definition removeFilter (filter : nat) (m : EventManager) : EventManager :=
  with_filters (set_delete filter) m.

Definition clearHistory (m : EventManager) : EventManager :=
  with_eventHistory (fun _ => []) m.

(** [removeAllListeners]: the map forgets its sets (the objects survive
    for whoever still holds them); the wildcard set is emptied in place. *)
Definition removeAllListeners (m : EventManager) : EventManager :=
  with_globalListeners set_clear (with_listeners (fun _ => ∅) m).

(** [addToHistory]: push, then one [shift] if the array is now longer than
    the capacity. *)
Definition addToHistory (event : MinecraftEvent) (m : EventManager) : EventManager :=
  let pushed := eventHistory m ++ [event] in
  if Z.of_nat (length pushed) >? maxHistorySize m
  then with_eventHistory (fun _ => tail pushed) m
  else with_eventHistory (fun _ => pushed) m.

(** [Array.prototype.slice(start)] with one argument: a negative start
    counts from the end and is clamped at 0, another one is clamped at the
    length. *)
Definition slice {A} (start : Z) (l : list A) : list A :=
  let len := Z.of_nat (length l) in
  let k := if start <? 0 then Z.max (len + start) 0 else Z.min start len in
  drop (Z.to_nat k) l.

(** [getHistory(eventType?, limit = 100)].  An argument left out is
    [None]; [if (eventType)] also skips the filter for the empty string. *)
Definition getHistory (eventType : option string) (limit : option Z)
    (m : EventManager) : list MinecraftEvent :=
  let limit := default 100 limit in
  let events :=
    match eventType with
    | Some k =>
        if String.eqb k "" then eventHistory m
        else List.filter (fun e => String.eqb (type e) k) (eventHistory m)
    | None => eventHistory m
    end in
  slice (- limit) events.

(* ===================================================================== *)
(** * Running [emit]: listeners, exceptions, iteration over live sets *)
(* ===================================================================== *)

(** What a listener may do to the hub while it runs: the public
    operations of the class, except a nested [emit]. *)
Inductive HubOp :=
| OpOn (eventType : string) (listener : nat)
| OpOff (eventType : string) (listener : nat)
| OpAddFilter (filter : nat)
| OpRemoveFilter (filter : nat)
| OpClearHistory
| OpSetMaxHistorySize (size : Z)
| OpRemoveAllListeners.

Definition apply_op (op : HubOp) (m : EventManager) : EventManager :=
  match op with
  | OpOn k l => on k l m
  | OpOff k l => off k l m
  | OpAddFilter f => addFilter f m
  | OpRemoveFilter f => removeFilter f m
  | OpClearHistory => clearHistory m
  | OpSetMaxHistorySize n => setMaxHistorySize n m
  | OpRemoveAllListeners => removeAllListeners m
  end.

Definition apply_ops (ops : list HubOp) (m : EventManager) : EventManager :=
  fold_left (fun m op => apply_op op m) ops m.

(** How a call of a listener ends. *)
Inductive Outcome := Returns | Throws (error : string).

(** One call of a listener: what it does to the hub, then how it ends (a
    rejected promise is a throw at the [await]). *)
Record Reaction := mkReaction { ops : list HubOp; outcome : Outcome }.

Inductive Scope := KindSpecific | Wildcard.

(** What can be observed of a run of [emit]. *)
Inductive Obs :=
| FilterRan (filter : nat) (event : MinecraftEvent)
| ListenerRan (scope : Scope) (listener : nat) (event : MinecraftEvent)
| ConsoleError (message : string) (error : string).

Record World := mkWorld { hub : EventManager; trace : list Obs }.

Definition observe (o : Obs) (w : World) : World :=
  {| hub := hub w; trace := trace w ++ [o] |}.

Definition update_hub (f : EventManager -> EventManager) (w : World) : World :=
  {| hub := f (hub w); trace := trace w |}.

(** A statement completes normally or abruptly (a throw). *)
Inductive Completion (A : Type) :=
| Normal (a : A)
| Abrupt (error : string).
Arguments Normal {A} a.
Arguments Abrupt {A} error.

(** Computations over the world; [None] is a loop that ran out of fuel. *)
Definition M (A : Type) : Type := World -> option (Completion A * World).

Definition ret {A} (a : A) : M A := fun w => Some (Normal a, w).

#[global] Instance M_ret : MRet M := @ret.

#[global] Instance M_bind : MBind M := fun A B k c w =>
  match c w with
  | None => None
  | Some (Normal a, w') => k a w'
  | Some (Abrupt e, w') => Some (Abrupt e, w')
  end.

Definition throw {A} (error : string) : M A := fun w => Some (Abrupt error, w).

Definition try_catch {A} (body : M A) (handler : string -> M A) : M A := fun w =>
  match body w with
  | Some (Abrupt e, w') => handler e w'
  | r => r
  end.

Definition diverge {A} : M A := fun _ => None.

Definition tell (o : Obs) : M unit := fun w => Some (Normal tt, observe o w).

Definition modify_hub (f : EventManager -> EventManager) : M unit :=
  fun w => Some (Normal tt, update_hub f w).

Definition read_hub {A} (f : EventManager -> A) : M A :=
  fun w => Some (Normal (f (hub w)), w).

(** The set object a [for ... of] walks. *)
Inductive SetRef := FiltersSet | GlobalSet | HeapSet (address : nat).

Definition deref (r : SetRef) (m : EventManager) : JSSet :=
  match r with
  | FiltersSet => filters m
  | GlobalSet => globalListeners m
  | HeapSet a => default [] (heap m !! a)
  end.

(** [for (const x of set) body]: the set iterator keeps an index into
    [[SetData]] and reads the object again at every step, so entries
    appended under the loop are visited and entries emptied before their
    turn are skipped.  The body answers [false] for a [return] out of the
    enclosing function; the loop answers [true] when it ran to the end. *)
Fixpoint for_of (fuel : nat) (r : SetRef) (index : nat) (body : nat -> M bool) : M bool :=
  match fuel with
  | O => diverge
  | S fuel' => fun w =>
      match deref r (hub w) !! index with
      | None => ret true w
      | Some None => for_of fuel' r (S index) body w
      | Some (Some x) =>
          (go_on ← body x;
           if go_on : bool then for_of fuel' r (S index) body else ret false) w
      end
  end.

(** The object literal [createAndEmit] builds, with [now] the reading of
    [Date.now()]. *)
Definition make_event (now : Z) (type : string) (severity : EventSeverity)
    (description : string) (data : option Payload) : MinecraftEvent :=
  {| type := type; timestamp := now; severity := severity;
     description := description; data := data |}.

Section Emit.

(** What listener [l] does when called with an event, and what filter
    [f] answers for it. *)
Variable react : nat -> MinecraftEvent -> Reaction.
Variable accepts : nat -> MinecraftEvent -> bool.

(** [listener(event)]. *)
Definition call_listener (scope : Scope) (l : nat) (event : MinecraftEvent) : M unit :=
  tell (ListenerRan scope l event);;
  modify_hub (apply_ops (ops (react l event)));;
  match outcome (react l event) with
  | Returns => ret tt
  | Throws e => throw e
  end.

(** [filter(event)]. *)
Definition call_filter (f : nat) (event : MinecraftEvent) : M bool :=
  tell (FilterRan f event);;
  ret (accepts f event).

(** [emit], in a run where no other code calls the hub while it is
    suspended at an [await] and where [console.error] returns; the
    function with its suspensions is [emit_async] below. *)
Definition emit (fuel : nat) (event : MinecraftEvent) : M unit :=
  passed ← for_of fuel FiltersSet 0 (fun f => call_filter f event);
  if passed : bool then
    modify_hub (addToHistory event);;
    typeListeners ← read_hub (fun m => listeners m !! type event);
    match typeListeners with
    | Some a =>
        for_of fuel (HeapSet a) 0 (fun listener =>
          try_catch (call_listener KindSpecific listener event)
            (fun error =>
               tell (ConsoleError
                       ("Error in event listener for " +:+ type event +:+ ":")
                       error));;
          ret true);;
        ret tt
    | None => ret tt
    end;;
    for_of fuel GlobalSet 0 (fun listener =>
      try_catch (call_listener Wildcard listener event)
        (fun error => tell (ConsoleError "Error in global event listener:" error));;
      ret true);;
    ret tt
  else ret tt.

(** [createAndEmit]. *)
Definition createAndEmit (fuel : nat) (now : Z) (type : string)
    (severity : EventSeverity) (description : string) (data : option Payload) : M unit :=
  emit fuel (make_event now type severity description data).

End Emit.

Section EmitAsync.

Variable react : nat -> MinecraftEvent -> Reaction.
Variable accepts : nat -> MinecraftEvent -> bool.

(** What other code does to the hub while [emit] is suspended at an
    [await], given the world as it is then: the caller that did not
    await the promise, another handler, a timer. *)
Variable meanwhile : World -> list HubOp.

(** How [console.error] ends for a thrown value: printing inspects the
    value, and the inspection of a hostile value (an inspect hook or a
    getter that throws, a revoked proxy) throws in its turn. *)
Variable console_error : string -> Outcome.

Definition suspend : M unit :=
  fun w => Some (Normal tt, update_hub (apply_ops (meanwhile w)) w).

(** [await listener(event)]: the call, the suspension, and the promise
    settled.  (A listener that throws before it answers a promise leaves
    no suspension: that is a run where [meanwhile] answers nothing
    there.) *)
Definition await_listener (scope : Scope) (l : nat) (event : MinecraftEvent) : M unit :=
  tell (ListenerRan scope l event);;
  modify_hub (apply_ops (ops (react l event)));;
  suspend;;
  match outcome (react l event) with
  | Returns => ret tt
  | Throws e => throw e
  end.

(** [console.error(message, error)]. *)
Definition print_error (message error : string) : M unit :=
  match console_error error with
  | Returns => tell (ConsoleError message error)
  | Throws e => throw e
  end.

(** [emit], with its suspensions.  An exception that leaves a [catch]
    handler leaves the loop and the function: the promise of [emit] is
    rejected. *)
Definition emit_async (fuel : nat) (event : MinecraftEvent) : M unit :=
  passed ← for_of fuel FiltersSet 0 (fun f => call_filter accepts f event);
  if passed : bool then
    modify_hub (addToHistory event);;
    typeListeners ← read_hub (fun m => listeners m !! type event);
    match typeListeners with
    | Some a =>
        for_of fuel (HeapSet a) 0 (fun listener =>
          try_catch (await_listener KindSpecific listener event)
            (fun error =>
               print_error ("Error in event listener for " +:+ type event +:+ ":")
                 error);;
          ret true);;
        ret tt
    | None => ret tt
    end;;
    for_of fuel GlobalSet 0 (fun listener =>
      try_catch (await_listener Wildcard listener event)
        (fun error => print_error "Error in global event listener:" error);;
      ret true);;
    ret tt
  else ret tt.

End EmitAsync.

(** Nobody else calls the hub while [emit] is suspended, and a console
    that prints whatever it is given. *)
Definition undisturbed : World -> list HubOp := fun _ => [].
Definition prints : string -> Outcome := fun _ => Returns.

(** The listeners an observed run called, in order. *)
Definition listeners_run (scope : Scope) (t : list Obs) : list nat :=
  omap (fun o => match o with
                 | ListenerRan s l _ =>
                     match s, scope with
                     | KindSpecific, KindSpecific | Wildcard, Wildcard => Some l
                     | _, _ => None
                     end
                 | _ => None
                 end) t.

(** The listeners an observed run called, whatever they were called
    for. *)
Definition listeners_called (t : list Obs) : list nat :=
  omap (fun o => match o with ListenerRan _ l _ => Some l | _ => None end) t.

Definition start (m : EventManager) : World := {| hub := m; trace := [] |}.

(* ===================================================================== *)
(** * Derived notions used to state the properties *)
(* ===================================================================== *)

(** A run of accepted emissions, as far as the history is concerned. *)
Definition record_all (events : list MinecraftEvent) (m : EventManager) : EventManager :=
  fold_left (fun m e => addToHistory e m) events m.

(** The entries a loop reaches when its body answers [go_on x] at [x]: up
    to and including the first [false]. *)
Fixpoint visited (go_on : nat -> bool) (xs : list nat) : list nat :=
  match xs with
  | [] => []
  | x :: rest => x :: (if go_on x then visited go_on rest else [])
  end.

(** What one listener call leaves in the trace: the call, and the line
    on the console if it threw. *)
Definition fanout_obs (react : nat -> MinecraftEvent -> Reaction)
    (scope : Scope) (message : string) (event : MinecraftEvent)
    (l : nat) : list Obs :=
  ListenerRan scope l event ::
  match outcome (react l event) with
  | Returns => []
  | Throws e => [ConsoleError message e]
  end.

(** The operations that change who is subscribed. *)
Definition registry_op (op : HubOp) : bool :=
  match op with
  | OpOn _ _ | OpOff _ _ | OpRemoveAllListeners => true
  | _ => false
  end.

Definition leaves_registry (r : Reaction) : bool :=
  forallb (fun op => negb (registry_op op)) (ops r).

Definition same_registry (m m' : EventManager) : Prop :=
  listeners m = listeners m' /\ heap m = heap m' /\
  globalListeners m = globalListeners m'.

(** The listeners subscribed to a kind, in insertion order. *)
Definition kind_listeners (kind : string) (m : EventManager) : list nat :=
  match listeners m !! kind with
  | Some a => set_live (default [] (heap m !! a))
  | None => []
  end.

(** The slots of the set of a kind, emptied ones included. *)
Definition kind_slots (kind : string) (m : EventManager) : nat :=
  match listeners m !! kind with
  | Some a => length (default [] (heap m !! a))
  | None => 0
  end.

(** Fuel for one emission on a hub whose sets do not grow under it. *)
Definition enough_fuel (fuel : nat) (event : MinecraftEvent) (m : EventManager) : Prop :=
  (length (filters m) < fuel /\ kind_slots (type event) m < fuel /\
   length (globalListeners m) < fuel)%nat.

(** The same listeners, none of which throws. *)
Definition calm (react : nat -> MinecraftEvent -> Reaction) :
    nat -> MinecraftEvent -> Reaction :=
  fun l event => {| ops := ops (react l event); outcome := Returns |}.

(** A trace without its console lines. *)
Definition without_console (t : list Obs) : list Obs :=
  List.filter (fun o => match o with ConsoleError _ _ => false | _ => true end) t.

(** Two worlds that differ at most in what was written to the console. *)
Definition alike (w1 w2 : World) : Prop :=
  hub w1 = hub w2 /\ without_console (trace w1) = without_console (trace w2).

(** Two runs that both ran out of fuel, or both completed normally with
    the same answer in alike worlds. *)
Definition alike_runs {A} (r1 r2 : option (Completion A * World)) : Prop :=
  match r1, r2 with
  | None, None => True
  | Some (Normal a1, w1), Some (Normal a2, w2) => a1 = a2 /\ alike w1 w2
  | _, _ => False
  end.

(** A hub with no filter and no listener. *)
Definition bare (m : EventManager) : Prop :=
  filters m = [] /\ listeners m = ∅ /\ globalListeners m = [].

(** Hubs the public operations can build. *)
Inductive reachable : EventManager -> Prop :=
| reach_new : reachable new_EventManager
| reach_op op m : reachable m -> reachable (apply_op op m)
| reach_record event m : reachable m -> reachable (addToHistory event m).

(** Several emissions in a row, each on the hub the previous one left. *)
Fixpoint emit_all (react : nat -> MinecraftEvent -> Reaction)
    (accepts : nat -> MinecraftEvent -> bool) (fuel : nat)
    (events : list MinecraftEvent) : M unit :=
  match events with
  | [] => ret tt
  | event :: rest => emit react accepts fuel event;; emit_all react accepts fuel rest
  end.

(* ===================================================================== *)
(** * Sample inputs *)
(* ===================================================================== *)

(** A chat line stamped [t]. *)
Definition sample (t : Z) : MinecraftEvent :=
  {| type := "chat"; timestamp := t; severity := INFO;
     description := "hello"; data := None |}.

(** Listeners that return at once and filters that accept. *)
Definition idle : nat -> MinecraftEvent -> Reaction := fun _ _ => mkReaction [] Returns.
Definition pass : nat -> MinecraftEvent -> bool := fun _ _ => true.

(** Wildcard listeners 1 and 2; while it runs, 1 subscribes 3 and
    unsubscribes 2. *)
Definition two_wildcards : EventManager := on "*" 2%nat (on "*" 1%nat new_EventManager).


(** Listeners 1 and 2 on chat, 3 on the wildcard; 1 throws, and filter 7
    is registered. *)
Definition chat_hub : EventManager :=
  addFilter 7%nat (on "*" 3%nat (on "chat" 2%nat (on "chat" 1%nat new_EventManager))).

Definition thrower : nat -> MinecraftEvent -> Reaction := fun l _ =>
  if Nat.eqb l 1 then mkReaction [] (Throws "boom") else mkReaction [] Returns.

(** A filter that lets nothing through after one that lets everything
    through, and one that is never asked. *)
Definition gated_hub : EventManager :=
  addFilter 9%nat (addFilter 8%nat (addFilter 7%nat (on "*" 3%nat new_EventManager))).

Definition gate : nat -> MinecraftEvent -> bool := fun f _ => negb (Nat.eqb f 8).


(* ===================================================================== *)
(** * Notifier (event notifier) *)
(* ===================================================================== *)

(** The host object is probed by name: a capability is missing ([None]) or
    is a function whose call ends as given. *)
Record McpServer := mkServer {
  notification : option Outcome;
  sendNotification : option Outcome;
  prompt : option Outcome
}.

Record EventNotifier := mkNotifier {
  server : option McpServer;
  enabled : bool;
  importantEventTypes : gset string
}.

(** The constructor. *)
Definition new_EventNotifier : EventNotifier :=
  {| server := None;
     enabled := true;
     importantEventTypes :=
       list_to_set
         ["chat"; "death"; "respawn"; "kicked"; "error"; "entity_hurt";
          "entity_death"; "block_break"; "block_place"; "item_collect";
          "damage"; "health_change"; "gamemode_change"; "spawn"; "login"] |}.




Definition removeImportantEventType (eventType : string) (n : EventNotifier) : EventNotifier :=
  {| server := server n; enabled := enabled n;
     importantEventTypes := importantEventTypes n ∖ {[eventType]} |}.

(** What a call of [notify] does that can be observed. *)
Inductive NotifierObs :=
| Formatted (event : MinecraftEvent)
| ServerCalled (method : string) (topic : string) (message : string)
    (event : MinecraftEvent)
| Prompted (topic : string) (text : string)
| Logged (level : string) (line : string).

Definition newline : string := String (Ascii.ascii_of_nat 10) "".

Definition severityEmoji (s : EventSeverity) : string :=
  match s with
  | INFO => "ℹ️"
  | WARNING => "⚠️"
  | ERROR => "❌"
  | SUCCESS => "✅"
  end.

(** A number inside a template literal; [number_to_string] is the text
    of a finite one. *)
Definition number_text (number_to_string : Q -> string) (n : JSNumber) : string :=
  match n with
  | JSFinite q => number_to_string q
  | JSNaN => "NaN"
  | JSInfinity false => "Infinity"
  | JSInfinity true => "-Infinity"
  end.

Fixpoint join (sep : string) (parts : list string) : string :=
  match parts with
  | [] => ""
  | [p] => p
  | p :: rest => p +:+ sep +:+ join sep rest
  end.

Section Notifier.

(** [Date.prototype.toLocaleTimeString('zh-CN')] of a time stamp, and the
    text of a finite number in a template literal. *)
Variable toLocaleTimeString : Z -> string.
Variable number_to_string : Q -> string.

(** A value inside a template literal. *)
Definition display (v : JSValue) : string :=
  match v with
  | VUndefined => "undefined"
  | VNull => "null"
  | VBool true => "true"
  | VBool false => "false"
  | VNum n => number_text number_to_string n
  | VStr s => s
  | VObj _ => "[object Object]"
  end.

(** [formatEventData]. *)
Definition formatEventData (data : Payload) : string :=
  let field key := assoc key data in
  let labelled label key :=
    if truthy (field key) then [label +:+ display (field key)] else [] in
  join ", "
    ((if truthy (field "position")
      then ["位置: (" +:+ display (get_field "x" (field "position")) +:+ ", "
              +:+ display (get_field "y" (field "position")) +:+ ", "
              +:+ display (get_field "z" (field "position")) +:+ ")"]
      else [])
     ++ labelled "玩家: " "username"
     ++ (if negb (is_undefined (field "health")) && negb (is_undefined (field "maxHealth"))
         then ["生命值: " +:+ display (field "health") +:+ "/"
                 +:+ display (field "maxHealth")]
         else [])
     ++ labelled "实体类型: " "entityType"
     ++ labelled "方块: " "blockName"
     ++ labelled "原因: " "reason"
     ++ labelled "消息: " "message").

(** [formatEventForAI]. *)
Definition formatEventForAI (event : MinecraftEvent) : string :=
  let message :=
    severityEmoji (severity event) +:+ " [" +:+ toLocaleTimeString (timestamp event)
      +:+ "] " +:+ description event in
  match data event with
  | Some d =>
      let dataStr := formatEventData d in
      if String.eqb dataStr "" then message
      else message +:+ newline +:+ "   详情: " +:+ dataStr
  | None => message
  end.

(** The fall-back of [sendMcpNotification] when the attempted capability
    throws. *)
Definition log_fallback (error message : string) : list NotifierObs :=
  [Logged "warn" ("无法通过 MCP 发送通知，使用日志记录: " +:+ error);
   Logged "info" ("[事件通知] " +:+ message)].

(** [sendMcpNotification]: the first capability that is a function is
    tried, and only that one. *)
Definition sendMcpNotification (message : string) (event : MinecraftEvent)
    (s : McpServer) : list NotifierObs :=
  match notification s with
  | Some Returns => [ServerCalled "notification" "minecraft/event" message event]
  | Some (Throws e) =>
      ServerCalled "notification" "minecraft/event" message event
        :: log_fallback e message
  | None =>
      match sendNotification s with
      | Some Returns => [ServerCalled "sendNotification" "minecraft/event" message event]
      | Some (Throws e) =>
          ServerCalled "sendNotification" "minecraft/event" message event
            :: log_fallback e message
      | None =>
          match prompt s with
          | Some Returns => [Prompted "minecraft_event" message]
          | Some (Throws e) => Prompted "minecraft_event" message :: log_fallback e message
          | None => [Logged "info" ("[事件通知] " +:+ message)]
          end
      end
  end.

(** [notify].  Nothing under its [try] throws in this model (formatting is
    total and [sendMcpNotification] catches what the host throws), so the
    outer [catch] has no run. *)
Definition notify (event : MinecraftEvent) (n : EventNotifier) : list NotifierObs :=
  if negb (enabled n) then []
  else
    let shouldNotify :=
      bool_decide (type event ∈ importantEventTypes n)
      || bool_decide (severity event = ERROR)
      || bool_decide (severity event = WARNING) in
    if negb shouldNotify then []
    else
      let eventMessage := formatEventForAI event in
      Formatted event ::
      match server n with
      | Some s => sendMcpNotification eventMessage event s
      | None => [Logged "info" ("[事件通知] " +:+ eventMessage)]
      end.

End Notifier.


(* ===================================================================== *)
(** * Bot event registry (the adapter) *)
(* ===================================================================== *)

(** What the handlers read from a mineflayer entity, block and item. *)
Record Entity := mkEntity {
  entity_id : Z;
  entity_type : string;
  entity_name : option string;
  position : option Vec3;
  entity_health : option JSNumber;
  onGround : bool
}.

Record Block := mkBlock {
  block_type : Z;
  block_name : string;
  block_position : Vec3
}.

Record Item := mkItem { item_name : string; item_count : Z }.

(** The bot as a handler finds it when a signal arrives: its fields, and
    the readings of the clock.  [now] is what [Date.now()] answers inside
    [createAndEmit], where the event is stamped.  The move handler reads
    the clock itself before that; [move_now] is what it is answered. *)
Record Bot := mkBot {
  username : string;
  entity : option Entity;
  health : JSNumber;
  maxHealth : option JSNumber;
  now : Z;
  move_now : Z
}.

(** The raw signals the registry subscribes to, with their arguments.
    The reason of [kicked] and [end] is carried as what [formatError]
    answers for it: a text, or [undefined] ([JSON.stringify] answers
    that for a reason that is [undefined]).  An error is carried as its
    [code], its message and its [stack] (present for an [Error]
    instance). *)
Inductive Signal :=
| SigSpawn
| SigLogin
| SigKicked (reason : option string)
| SigEnd (reason : option string)
| SigChat (sender message : string)
| SigWhisper (sender message : string)
| SigEntityHurt (e : Entity)
| SigEntityDead (e : Entity)
| SigEntitySpawn (e : Entity)
| SigEntityGone (e : Entity)
| SigBlockUpdate (oldBlock : option Block) (newBlock : Block)
| SigBlockBreakProgressObserved (block : Block) (destroyStage : Z)
| SigItemDrop (e : Entity)
| SigItemCollect (collector_is_bot : bool) (name : string) (item_type : Z)
| SigUpdateSlot (slot : Z) (oldItem newItem : option Item)
| SigHealth
| SigHurt
| SigDeath
| SigRespawn
| SigMove
| SigJump
| SigError (code : option string) (message : string) (stack : option string).

(** What the handlers keep between signals: whether the [once] handler of
    spawn is still registered, and the two variables the move handler
    closes over. *)
Record BotEventRegistry := mkRegistry {
  spawn_pending : bool;
  lastMoveTime : Z;
  lastPosition : option Vec3
}.

(** After [registerAllEvents]. *)
Definition registered : BotEventRegistry :=
  {| spawn_pending := true; lastMoveTime := 0; lastPosition := None |}.

(** [Math.floor]: the greatest integer not above a finite number; [NaN]
    and the infinities are answered as they are. *)
Definition Math_floor (n : JSNumber) : JSNumber :=
  match n with
  | JSFinite q => JSFinite (inject_Z (Qfloor q))
  | JSNaN => JSNaN
  | JSInfinity negative => JSInfinity negative
  end.

Definition number (z : Z) : JSValue := VNum (JSFinite (inject_Z z)).

Definition optional {A} (f : A -> JSValue) (o : option A) : JSValue :=
  match o with Some a => f a | None => VUndefined end.

(** [{ x: Math.floor(p.x), y: Math.floor(p.y), z: Math.floor(p.z) }]. *)
Definition floored (p : Vec3) : JSValue :=
  VObj [("x", VNum (Math_floor (vx p))); ("y", VNum (Math_floor (vy p)));
        ("z", VNum (Math_floor (vz p)))].

(** [{ x: p.x, y: p.y, z: p.z }]. *)
Definition copied (p : Vec3) : JSValue :=
  VObj [("x", VNum (vx p)); ("y", VNum (vy p)); ("z", VNum (vz p))].

(** [this.bot.entity?.position]. *)
Definition bot_position (bot : Bot) : option Vec3 :=
  match entity bot with Some e => position e | None => None end.

(** [entity.name || entity.type]. *)
Definition name_or_type (e : Entity) : string :=
  match entity_name e with
  | Some n => if String.eqb n "" then entity_type e else n
  | None => entity_type e
  end.

(** [(this.bot as any).maxHealth || 20]. *)
Definition max_health (bot : Bot) : JSNumber :=
  match maxHealth bot with
  | Some n => if truthy (VNum n) then n else JSFinite 20
  | None => JSFinite 20
  end.

Definition item_value (i : Item) : JSValue :=
  VObj [("name", VStr (item_name i)); ("count", number (item_count i))].

Section Registry.

(** The text of a number in a template literal. *)
Variable number_to_string : Q -> string.

(** [registerConnectionEvents]. *)
Definition on_spawn (bot : Bot) (st : BotEventRegistry)
  : BotEventRegistry * list MinecraftEvent :=
  if spawn_pending st then
    ({| spawn_pending := false; lastMoveTime := lastMoveTime st;
        lastPosition := lastPosition st |},
     [make_event (now bot) "spawn" SUCCESS "机器人已生成在世界中"
        (Some [("position", optional floored (bot_position bot));
               ("username", VStr (username bot))])])
  else (st, []).

Definition on_login (bot : Bot) : list MinecraftEvent :=
  [make_event (now bot) "login" INFO "机器人已登录服务器"
     (Some [("username", VStr (username bot))])].

Definition on_kicked (bot : Bot) (reason : option string) : list MinecraftEvent :=
  [make_event (now bot) "kicked" ERROR
     ("机器人被服务器踢出: " +:+ default "undefined" reason)
     (Some [("reason", optional VStr reason); ("username", VStr (username bot))])].

Definition on_end (bot : Bot) (reason : option string) : list MinecraftEvent :=
  [make_event (now bot) "end" WARNING
     ("机器人连接已断开: " +:+ default "undefined" reason)
     (Some [("reason", optional VStr reason)])].

(** [registerChatEvents]. *)
Definition on_chat (bot : Bot) (sender message : string) : list MinecraftEvent :=
  if String.eqb sender (username bot) then []
  else
    [make_event (now bot) "chat" INFO (sender +:+ ": " +:+ message)
       (Some [("username", VStr sender); ("message", VStr message);
              ("isBot", VBool false)])].

Definition on_whisper (bot : Bot) (sender message : string) : list MinecraftEvent :=
  [make_event (now bot) "chat" INFO ("[私聊] " +:+ sender +:+ ": " +:+ message)
     (Some [("username", VStr sender); ("message", VStr message);
            ("isBot", VBool false); ("isWhisper", VBool true)])].

(** [registerEntityEvents]. *)
Definition entity_fields (e : Entity) : Payload :=
  [("entityId", number (entity_id e)); ("entityType", VStr (entity_type e));
   ("entityName", optional VStr (entity_name e))].

Definition on_entityHurt (bot : Bot) (e : Entity) : list MinecraftEvent :=
  [make_event (now bot) "entity_hurt" INFO ("实体 " +:+ name_or_type e +:+ " 受到伤害")
     (Some (entity_fields e
            ++ [("position", optional floored (position e));
                ("health", optional VNum (entity_health e))]))].

Definition on_entityDead (bot : Bot) (e : Entity) : list MinecraftEvent :=
  [make_event (now bot) "entity_death" INFO ("实体 " +:+ name_or_type e +:+ " 死亡")
     (Some (entity_fields e ++ [("position", optional floored (position e))]))].

Definition on_entitySpawn (bot : Bot) (e : Entity) : list MinecraftEvent :=
  [make_event (now bot) "entity_spawn" INFO ("实体 " +:+ name_or_type e +:+ " 生成")
     (Some (entity_fields e ++ [("position", optional floored (position e))]))].

Definition on_entityGone (bot : Bot) (e : Entity) : list MinecraftEvent :=
  [make_event (now bot) "entity_gone" INFO ("实体 " +:+ name_or_type e +:+ " 消失")
     (Some (entity_fields e))].

(** [registerBlockEvents]. *)
Definition on_blockUpdate (bot : Bot) (oldBlock : option Block) (newBlock : Block)
  : list MinecraftEvent :=
  match oldBlock with
  | Some old =>
      if negb (Z.eqb (block_type old) (block_type newBlock)) then
        [make_event (now bot) "block_update" INFO
           ("方块更新: " +:+ block_name old +:+ " -> " +:+ block_name newBlock)
           (Some [("position", copied (block_position newBlock));
                  ("blockType", number (block_type newBlock));
                  ("blockName", VStr (block_name newBlock));
                  ("oldBlockType", number (block_type old))])]
      else []
  | None => []
  end.

Definition on_blockBreakProgressObserved (bot : Bot) (block : Block) (destroyStage : Z)
  : list MinecraftEvent :=
  if Z.eqb destroyStage 9 then
    [make_event (now bot) "block_break" INFO ("方块被破坏: " +:+ block_name block)
       (Some [("position", copied (block_position block));
              ("blockType", number (block_type block));
              ("blockName", VStr (block_name block))])]
  else [].

(** [registerItemEvents].  [itemDrop] reads the name of the entity as it
    is, so a missing name prints as [undefined]. *)
Definition on_itemDrop (bot : Bot) (e : Entity) : list MinecraftEvent :=
  [make_event (now bot) "item_drop" INFO
     ("物品掉落: " +:+ default "undefined" (entity_name e))
     (Some [("itemName", optional VStr (entity_name e));
            ("position", optional floored (position e))])].

Definition on_itemCollect (bot : Bot) (isBot : bool) (name : string) (item_type : Z)
  : list MinecraftEvent :=
  [make_event (now bot) "item_collect" INFO
     ((if isBot then "机器人" else "实体") +:+ " 收集物品: " +:+ name)
     (Some [("itemName", VStr name); ("itemType", number item_type);
            ("isBot", VBool isBot)])].

Definition on_updateSlot (bot : Bot) (slot : Z) (oldItem newItem : option Item)
  : list MinecraftEvent :=
  if negb (bool_decide (item_name <$> oldItem = item_name <$> newItem))
     || negb (bool_decide (item_count <$> oldItem = item_count <$> newItem))
  then
    [make_event (now bot) "inventory_update" INFO
       ("物品栏更新: 槽位 " +:+ number_to_string (inject_Z slot))
       (Some [("slot", number slot);
              ("oldItem", match oldItem with Some i => item_value i | None => VNull end);
              ("newItem", match newItem with Some i => item_value i | None => VNull end)])]
  else [].

(** [registerDamageEvents]. *)
Definition on_health (bot : Bot) : list MinecraftEvent :=
  [make_event (now bot) "health_change" INFO
     ("生命值变化: " +:+ number_text number_to_string (health bot) +:+ "/"
        +:+ number_text number_to_string (max_health bot))
     (Some [("health", VNum (health bot)); ("maxHealth", VNum (max_health bot))])].

Definition on_hurt (bot : Bot) : list MinecraftEvent :=
  [make_event (now bot) "damage" WARNING
     ("机器人受到伤害: " +:+ number_text number_to_string (health bot) +:+ "/"
        +:+ number_text number_to_string (max_health bot))
     (Some [("health", VNum (health bot)); ("maxHealth", VNum (max_health bot))])].

(** [registerDeathEvents]. *)
Definition on_death (bot : Bot) : list MinecraftEvent :=
  [make_event (now bot) "death" ERROR "机器人死亡"
     (Some [("position", optional floored (bot_position bot))])].

Definition on_respawn (bot : Bot) : list MinecraftEvent :=
  [make_event (now bot) "respawn" SUCCESS "机器人重生"
     (Some [("position", optional floored (bot_position bot))])].

(** [registerMovementEvents].  The handler reads the clock for the rate
    gate and stores that reading before the position is looked at; the
    event is stamped by [createAndEmit], which reads the clock again. *)
Definition on_move (bot : Bot) (st : BotEventRegistry)
  : BotEventRegistry * list MinecraftEvent :=
  if move_now bot - lastMoveTime st <? 500 then (st, [])
  else
    match bot_position bot with
    | None =>
        ({| spawn_pending := spawn_pending st; lastMoveTime := move_now bot;
            lastPosition := lastPosition st |}, [])
    | Some currentPos =>
        ({| spawn_pending := spawn_pending st; lastMoveTime := move_now bot;
            lastPosition := Some currentPos |},
         [make_event (now bot) "move" INFO "机器人移动"
            (Some [("position", floored currentPos);
                   ("onGround", optional (fun e => VBool (onGround e)) (entity bot))])])
    end.

Definition on_jump (bot : Bot) : list MinecraftEvent :=
  [make_event (now bot) "jump" INFO "机器人跳跃"
     (Some [("position", optional floored (bot_position bot))])].

(** [registerErrorEvents]. *)
Definition on_error (bot : Bot) (code : option string) (message : string)
    (stack : option string) : list MinecraftEvent :=
  let errorCode :=
    match code with
    | Some c => if String.eqb c "" then "Unknown error" else c
    | None => "Unknown error"
    end in
  [make_event (now bot) "error" ERROR
     ("机器人错误 [" +:+ errorCode +:+ "]: " +:+ message)
     (Some [("error", VStr message); ("code", VStr errorCode);
            ("stack", optional VStr stack)])].

(** One raw signal: the events handed to the hub, and the registry
    afterwards. *)
Definition handle (bot : Bot) (signal : Signal) (st : BotEventRegistry)
  : BotEventRegistry * list MinecraftEvent :=
  match signal with
  | SigSpawn => on_spawn bot st
  | SigLogin => (st, on_login bot)
  | SigKicked reason => (st, on_kicked bot reason)
  | SigEnd reason => (st, on_end bot reason)
  | SigChat sender message => (st, on_chat bot sender message)
  | SigWhisper sender message => (st, on_whisper bot sender message)
  | SigEntityHurt e => (st, on_entityHurt bot e)
  | SigEntityDead e => (st, on_entityDead bot e)
  | SigEntitySpawn e => (st, on_entitySpawn bot e)
  | SigEntityGone e => (st, on_entityGone bot e)
  | SigBlockUpdate oldBlock newBlock => (st, on_blockUpdate bot oldBlock newBlock)
  | SigBlockBreakProgressObserved block stage =>
      (st, on_blockBreakProgressObserved bot block stage)
  | SigItemDrop e => (st, on_itemDrop bot e)
  | SigItemCollect isBot name item_type => (st, on_itemCollect bot isBot name item_type)
  | SigUpdateSlot slot oldItem newItem => (st, on_updateSlot bot slot oldItem newItem)
  | SigHealth => (st, on_health bot)
  | SigHurt => (st, on_hurt bot)
  | SigDeath => (st, on_death bot)
  | SigRespawn => (st, on_respawn bot)
  | SigMove => on_move bot st
  | SigJump => (st, on_jump bot)
  | SigError code message stack => (st, on_error bot code message stack)
  end.

(** A sequence of signals, each with the bot as it is then: the events of
    each signal in turn. *)
Fixpoint run (signals : list (Bot * Signal)) (st : BotEventRegistry)
  : list (list MinecraftEvent) :=
  match signals with
  | [] => []
  | (bot, signal) :: rest =>
      let '(st', events) := handle bot signal st in
      events :: run rest st'
  end.

End Registry.

Definition is_signal_spawn (s : Bot * Signal) : bool :=
  match snd s with SigSpawn => true | _ => false end.

(** A number that is an integer: finite, with no fractional part. *)
Definition integral (n : JSNumber) : bool :=
  match n with
  | JSFinite q => Qeq_bool q (inject_Z (Qfloor q))
  | _ => false
  end.

Definition finite (n : JSNumber) : bool :=
  match n with JSFinite _ => true | _ => false end.

(** The numbers under [position], [health] and [maxHealth] of a payload
    are integers. *)
Definition integral_value (v : JSValue) : bool :=
  match v with VNum n => integral n | _ => true end.

Definition integral_position (v : JSValue) : bool :=
  integral_value (get_field "x" v) && integral_value (get_field "y" v)
  && integral_value (get_field "z" v).

Definition integral_payload (e : MinecraftEvent) : bool :=
  match data e with
  | Some d =>
      integral_position (assoc "position" d)
      && integral_value (assoc "health" d)
      && integral_value (assoc "maxHealth" d)
  | None => true
  end.

(** The signals whose handlers read the position of an entity. *)
Definition reads_entity_position (s : Signal) : bool :=
  match s with
  | SigSpawn | SigEntityHurt _ | SigEntityDead _ | SigEntitySpawn _ | SigItemDrop _
  | SigDeath | SigRespawn | SigMove | SigJump => true
  | _ => false
  end.

(** A bot standing at a position, at a given time. *)
Definition bot_at (t : Z) (p : Vec3) : Bot :=
  {| username := "Rackster";
     entity := Some {| entity_id := 1; entity_type := "player";
                       entity_name := Some "Rackster"; position := Some p;
                       entity_health := None; onGround := true |};
     health := 20; maxHealth := None; now := t; move_now := t |}.

(** A bot that has no entity yet. *)
Definition bot_without_entity (t : Z) : Bot :=
  {| username := "Rackster"; entity := None; health := 20; maxHealth := None;
     now := t; move_now := t |}.

Definition origin : Vec3 := {| vx := 0; vy := 64; vz := 0 |}.

(** The registry after a sequence of signals. *)
Fixpoint settle (number_to_string : Q -> string) (signals : list (Bot * Signal))
    (st : BotEventRegistry) : BotEventRegistry :=
  match signals with
  | [] => st
  | (bot, signal) :: rest =>
      settle number_to_string rest (fst (handle number_to_string bot signal st))
  end.

(** The position a handler reads: of the entity in the signal, or of the
    bot. *)
Definition source_position (bot : Bot) (signal : Signal) : option Vec3 :=
  match signal with
  | SigEntityHurt e | SigEntityDead e | SigEntitySpawn e | SigItemDrop e => position e
  | _ => bot_position bot
  end.

(** The time stamps of the move events among the events of a run. *)
Definition move_times (outputs : list (list MinecraftEvent)) : list Z :=
  map timestamp (List.filter (fun e => String.eqb (type e) "move") (concat outputs)).

(** Every later entry is at least [gap] after every earlier one. *)
Fixpoint spaced (gap : Z) (times : list Z) : Prop :=
  match times with
  | [] => True
  | t :: rest => Forall (fun u => gap <= u - t) rest /\ spaced gap rest
  end.

(** A stand-in for the printing of numbers where the text does not
    matter. *)
Definition no_digits : Q -> string := fun _ => "".

(** A bot whose health has a fractional part. *)
Definition wounded_bot : Bot :=
  {| username := "Rackster"; entity := None; health := 39 # 2; maxHealth := None;
     now := 1000; move_now := 1000 |}.

(** The event the move handler gives for a bot standing on the ground at
    [p], at time [t]. *)
Definition move_event (t : Z) (p : Vec3) : MinecraftEvent :=
  make_event t "move" INFO "机器人移动"
    (Some [("position", floored p); ("onGround", VBool true)]).

(** Four move signals 0, 100, 200 and 600 ms after [T]. *)
Definition four_moves (T : Z) (p0 p1 p2 p3 : Vec3) : list (Bot * Signal) :=
  [(bot_at T p0, SigMove); (bot_at (T + 100) p1, SigMove);
   (bot_at (T + 200) p2, SigMove); (bot_at (T + 600) p3, SigMove)].

Definition halfway : Vec3 := {| vx := 3 # 2; vy := 129 # 2; vz := - (1 # 2) |}.

(* ===================================================================== *)
(** * Further notions: subscriptions, hubs in good order, host calls *)
(* ===================================================================== *)

(** The listeners subscribed under a key, in subscription order: the
    wildcard set for "*", the set of the kind otherwise. *)
Definition subscribers (key : string) (m : EventManager) : list nat :=
  if String.eqb key "*" then set_live (globalListeners m) else kind_listeners key m.

(** The kind map of a hub in good order: "*" is no key of it, every
    address is that of a set on the heap, and two kinds do not share a
    set. *)
Definition well_formed (m : EventManager) : Prop :=
  listeners m !! "*" = None /\
  (forall k a, listeners m !! k = Some a -> (a < length (heap m))%nat) /\
  (forall k k' a, listeners m !! k = Some a -> listeners m !! k' = Some a -> k = k').

(** Operations that write to a set on the heap, and operations that write
    to the wildcard set. *)
Definition touches_heap (op : HubOp) : bool :=
  match op with
  | OpOn k _ | OpOff k _ => negb (String.eqb k "*")
  | _ => false
  end.

Definition touches_wildcards (op : HubOp) : bool :=
  match op with
  | OpOn k _ | OpOff k _ => String.eqb k "*"
  | OpRemoveAllListeners => true
  | _ => false
  end.

Definition spares_heap (r : Reaction) : bool :=
  forallb (fun op => negb (touches_heap op)) (ops r).

Definition spares_wildcards (r : Reaction) : bool :=
  forallb (fun op => negb (touches_wildcards op)) (ops r).

(** The hub after the listeners [ls] were called with the event, in that
    order. *)
Definition after_listeners (react : nat -> MinecraftEvent -> Reaction)
    (event : MinecraftEvent) (ls : list nat) (m : EventManager) : EventManager :=
  fold_left (fun h l => apply_ops (ops (react l event)) h) ls m.

(** One guarded listener call, as a step on worlds. *)
Definition fanout_step (react : nat -> MinecraftEvent -> Reaction) (scope : Scope)
    (message : string) (event : MinecraftEvent) (l : nat) (w : World) : World :=
  {| hub := apply_ops (ops (react l event)) (hub w);
     trace := trace w ++ fanout_obs react scope message event l |}.

(** The hub between the two fan-out loops of an accepted emission. *)
Definition hub_after_kind (react : nat -> MinecraftEvent -> Reaction)
    (event : MinecraftEvent) (m : EventManager) : EventManager :=
  after_listeners react event (kind_listeners (type event) m) (addToHistory event m).

(** A call into the host. *)
Definition is_host_call (o : NotifierObs) : bool :=
  match o with
  | ServerCalled _ _ _ _ | Prompted _ _ => true
  | _ => false
  end.

(** The capability [sendMcpNotification] picks: the first that is a
    function, with its name and how a call of it ends. *)
Definition first_capability (s : McpServer) : option (string * Outcome) :=
  match notification s with
  | Some o => Some ("notification", o)
  | None =>
      match sendNotification s with
      | Some o => Some ("sendNotification", o)
      | None =>
          match prompt s with
          | Some o => Some ("prompt", o)
          | None => None
          end
      end
  end.

(** The keys of a payload that [formatEventData] reads. *)
Definition recognized_keys : list string :=
  ["position"; "username"; "health"; "maxHealth"; "entityType"; "blockName";
   "reason"; "message"].


(** Signals whose handler gives an event at every occurrence. *)
Definition unconditional (s : Signal) : bool :=
  match s with
  | SigSpawn | SigChat _ _ | SigBlockUpdate _ _ | SigBlockBreakProgressObserved _ _
  | SigUpdateSlot _ _ _ | SigMove => false
  | _ => true
  end.




(** The filters an observed run asked, in order. *)
Definition filters_asked (w : World) : list nat :=
  omap (fun o => match o with FilterRan f _ => Some f | _ => None end) (trace w).

(** Filter 8 rejects everything; the others accept. *)
Definition chat_hub_gated : EventManager := addFilter 8%nat chat_hub.

(** The entries of the buffer a query with this kind argument looks at:
    all of them when the argument is left out or is the empty string. *)
Definition matching (kind : option string) (m : EventManager) : list MinecraftEvent :=
  match kind with
  | Some k =>
      if String.eqb k "" then eventHistory m
      else List.filter (fun e => String.eqb (type e) k) (eventHistory m)
  | None => eventHistory m
  end.



(** The observation of a call of the capability named [name]. *)
Definition host_call (name message : string) (event : MinecraftEvent) : NotifierObs :=
  if String.eqb name "prompt" then Prompted "minecraft_event" message
  else ServerCalled name "minecraft/event" message event.

(** The first line of a formatted event. *)
Definition headline (toLocaleTimeString : Z -> string) (event : MinecraftEvent) : string :=
  severityEmoji (severity event) +:+ " [" +:+ toLocaleTimeString (timestamp event)
    +:+ "] " +:+ description event.

(** An event with another payload. *)
Definition with_data (d : option Payload) (event : MinecraftEvent) : MinecraftEvent :=
  {| type := type event; timestamp := timestamp event; severity := severity event;
     description := description event; data := d |}.


(** The kind and the severity of the event of a signal. *)
Definition kind_of (s : Signal) : string :=
  match s with
  | SigSpawn => "spawn"
  | SigLogin => "login"
  | SigKicked _ => "kicked"
  | SigEnd _ => "end"
  | SigChat _ _ | SigWhisper _ _ => "chat"
  | SigEntityHurt _ => "entity_hurt"
  | SigEntityDead _ => "entity_death"
  | SigEntitySpawn _ => "entity_spawn"
  | SigEntityGone _ => "entity_gone"
  | SigBlockUpdate _ _ => "block_update"
  | SigBlockBreakProgressObserved _ _ => "block_break"
  | SigItemDrop _ => "item_drop"
  | SigItemCollect _ _ _ => "item_collect"
  | SigUpdateSlot _ _ _ => "inventory_update"
  | SigHealth => "health_change"
  | SigHurt => "damage"
  | SigDeath => "death"
  | SigRespawn => "respawn"
  | SigMove => "move"
  | SigJump => "jump"
  | SigError _ _ _ => "error"
  end.

Definition severity_of (s : Signal) : EventSeverity :=
  match s with
  | SigKicked _ | SigDeath | SigError _ _ _ => ERROR
  | SigEnd _ | SigHurt => WARNING
  | SigSpawn | SigRespawn => SUCCESS
  | _ => INFO
  end.

Definition is_signal_move (s : Bot * Signal) : bool :=
  match snd s with SigMove => true | _ => false end.

(** The move events among the events of a run. *)
Definition moves_of (outputs : list (list MinecraftEvent)) : list MinecraftEvent :=
  List.filter (fun e => String.eqb (type e) "move") (concat outputs).

(* ===================================================================== *)
(** * Notions for the runs of [emit_async] *)
(* ===================================================================== *)

(** Operations that leave the subscriptions alone. *)
Definition registry_free (ops : list HubOp) : bool :=
  forallb (fun op => negb (registry_op op)) ops.

(** The console prints what listener [l] throws at the event. *)
Definition printable (react : nat -> MinecraftEvent -> Reaction)
    (console_error : string -> Outcome) (event : MinecraftEvent) (l : nat) : Prop :=
  forall e, outcome (react l event) = Throws e -> console_error e = Returns.

(** One awaited call whose error, if any, the console prints, as a step
    on worlds: the call, what other code does during the suspension, and
    the line on the console. *)
Definition await_step (react : nat -> MinecraftEvent -> Reaction)
    (meanwhile : World -> list HubOp) (scope : Scope) (message : string)
    (event : MinecraftEvent) (l : nat) (w : World) : World :=
  let called :=
    update_hub (apply_ops (ops (react l event))) (observe (ListenerRan scope l event) w) in
  let resumed := update_hub (apply_ops (meanwhile called)) called in
  {| hub := hub resumed;
     trace := trace resumed ++
       match outcome (react l event) with
       | Returns => []
       | Throws e => [ConsoleError message e]
       end |}.

(** Other code that does not look at the console: it does the same in
    two worlds that differ in console lines only. *)
Definition blind_to_console (meanwhile : World -> list HubOp) : Prop :=
  forall w1 w2, alike w1 w2 -> meanwhile w1 = meanwhile w2.

(** A caller that does not await the promise of [emit] and unsubscribes
    wildcard listener 2 right after the call: it runs when [emit] is
    suspended for the first time. *)
Definition impatient_caller : World -> list HubOp := fun w =>
  match listeners_called (trace w) with
  | [_] => [OpOff "*" 2%nat]
  | _ => []
  end.

(** A console whose inspection of the value "boom" throws. *)
Definition hostile_console : string -> Outcome := fun error =>
  if String.eqb error "boom" then Throws "inspect failed" else Returns.

(* ===================================================================== *)
(** * Notions for the notifier and the adapter *)
(* ===================================================================== *)



(** The readings of the clock by the move handler at the signals of a
    run that gave a move event. *)
Fixpoint move_reads (number_to_string : Q -> string) (signals : list (Bot * Signal))
    (st : BotEventRegistry) : list Z :=
  match signals with
  | [] => []
  | (bot, signal) :: rest =>
      (if existsb (fun e => String.eqb (type e) "move")
            (snd (handle number_to_string bot signal st))
       then [move_now bot] else [])
      ++ move_reads number_to_string rest (fst (handle number_to_string bot signal st))
  end.

(** A bot standing at [p] whose move handler reads the clock at [read]
    and whose event is stamped at [stamp]. *)
Definition bot_read_at (read stamp : Z) (p : Vec3) : Bot :=
  {| username := "Rackster";
     entity := Some {| entity_id := 1; entity_type := "player";
                       entity_name := Some "Rackster"; position := Some p;
                       entity_health := None; onGround := true |};
     health := 20; maxHealth := None; now := stamp; move_now := read |}.

Definition finite_position (p : Vec3) : bool :=
  finite (vx p) && finite (vy p) && finite (vz p).

(** A zombie at (1.5, 64.5, -0.5) with a health of 7.5. *)
Definition hurt_zombie : Entity :=
  {| entity_id := 7; entity_type := "mob"; entity_name := Some "zombie";
     position := Some halfway; entity_health := Some (JSFinite (15 # 2));
     onGround := true |}.

(** A position that is not one. *)
Definition nowhere : Vec3 := {| vx := JSNaN; vy := 64; vz := JSInfinity true |}.

(** A bot with a maximum health of its own. *)
Definition sturdy_bot : Bot :=
  {| username := "Rackster"; entity := None; health := 39 # 2;
     maxHealth := Some (JSFinite 40); now := 1000; move_now := 1000 |}.

(** A computation from which no exception escapes. *)
Definition never_throws {A} (c : M A) : Prop :=
  forall w error w', c w <> Some (Abrupt error, w').

(* ===================================================================== *)
(** * History buffer *)
(* ===================================================================== *)

Lemma addToHistory_capacity event m :
  maxHistorySize (addToHistory event m) = maxHistorySize m.
Proof. unfold addToHistory. by case_match. Qed.

Lemma addToHistory_room event m :
  Z.of_nat (length (eventHistory m)) < maxHistorySize m ->
  eventHistory (addToHistory event m) = eventHistory m ++ [event].
Proof.
  intros Hlt. unfold addToHistory. rewrite length_app. simpl.
  destruct (Z.gtb_spec (Z.of_nat (length (eventHistory m) + 1)) (maxHistorySize m));
    [lia | done].
Qed.

(** At capacity or above, the oldest entry goes and the new one is last:
    the length does not change. *)
Lemma addToHistory_full event m :
  maxHistorySize m <= Z.of_nat (length (eventHistory m)) ->
  eventHistory (addToHistory event m) = tail (eventHistory m ++ [event]).
Proof.
  intros Hle. unfold addToHistory. rewrite length_app. simpl.
  destruct (Z.gtb_spec (Z.of_nat (length (eventHistory m) + 1)) (maxHistorySize m));
    [done | lia].
Qed.

Lemma length_tail_snoc {A} (l : list A) (x : A) : length (tail (l ++ [x])) = length l.
Proof. destruct l; simpl; [done |]. rewrite length_app. simpl. lia. Qed.

(** The bound is kept by an insertion once it holds. *)
Lemma addToHistory_keeps_bound event m :
  0 <= maxHistorySize m ->
  Z.of_nat (length (eventHistory m)) <= maxHistorySize m ->
  Z.of_nat (length (eventHistory (addToHistory event m))) <= maxHistorySize m.
Proof.
  intros Hcap Hle.
  destruct (Z.eq_dec (Z.of_nat (length (eventHistory m))) (maxHistorySize m)) as [Heq | Hne].
  - rewrite addToHistory_full by lia. rewrite length_tail_snoc. lia.
  - rewrite addToHistory_room by lia. rewrite length_app. simpl. lia.
Qed.

(** Above capacity an insertion does not bring the length back under it:
    one entry comes, one goes. *)
Lemma addToHistory_above event m :
  maxHistorySize m <= Z.of_nat (length (eventHistory m)) ->
  length (eventHistory (addToHistory event m)) = length (eventHistory m).
Proof. intros Hle. rewrite addToHistory_full by done. apply length_tail_snoc. Qed.

Lemma record_all_snoc events e m :
  record_all (events ++ [e]) m = addToHistory e (record_all events m).
Proof. unfold record_all. by rewrite fold_left_app. Qed.

Lemma record_all_capacity events m :
  maxHistorySize (record_all events m) = maxHistorySize m.
Proof.
  induction events as [| e events IH] using rev_ind; [done |].
  by rewrite record_all_snoc, addToHistory_capacity.
Qed.

Lemma tail_drop {A} (n : nat) (l : list A) : tail (drop n l) = drop (S n) l.
Proof. revert l. induction n as [| n IH]; intros [| x l]; simpl; try done. Qed.

(** From an empty history with capacity [C], the history after a run is
    the last [C] events of the run. *)
Lemma record_all_history (C : nat) events m :
  eventHistory m = [] -> maxHistorySize m = Z.of_nat C ->
  eventHistory (record_all events m) = drop (length events - C) events.
Proof.
  intros Hempty Hcap.
  induction events as [| e events IH] using rev_ind.
  - simpl. exact Hempty.
  - rewrite record_all_snoc.
    assert (Hlen : length (drop (length events - C) events) = Nat.min (length events) C)
      by (rewrite length_drop; lia).
    destruct (Nat.lt_ge_cases (length events) C) as [Hlt | Hge].
    + rewrite addToHistory_room by (rewrite record_all_capacity, IH, Hlen; lia).
      rewrite IH, length_app. simpl.
      replace (length events - C)%nat with 0%nat by lia.
      replace (length events + 1 - C)%nat with 0%nat by lia. done.
    + rewrite addToHistory_full by (rewrite record_all_capacity, IH, Hlen; lia).
      rewrite IH, length_app. simpl.
      replace (length events + 1 - C)%nat with (S (length events - C)) by lia.
      rewrite <- tail_drop. rewrite (drop_app_le events [e]) by lia. done.
Qed.

Lemma slice_last {A} (limit : Z) (l : list A) :
  0 < limit -> slice (- limit) l = drop (length l - Z.to_nat limit) l.
Proof.
  intros Hpos. unfold slice.
  destruct (Z.ltb_spec (- limit) 0); [| lia]. f_equal. lia.
Qed.

Lemma slice_zero {A} (l : list A) : slice (- 0) l = l.
Proof. unfold slice. simpl. by rewrite Z.min_l by lia. Qed.

(** The history bound of the spec, for a capacity fixed before the run:
    [getHistory(undefined, K)] after [K] accepted emissions gives the last
    [min K C] of them, in order. *)
Lemma history_after_emissions (C : nat) events :
  let m := record_all events (setMaxHistorySize (Z.of_nat C) new_EventManager) in
  let K := length events in
  getHistory None (Some (Z.of_nat K)) m = drop (K - C) events /\
  length (getHistory None (Some (Z.of_nat K)) m) = Nat.min K C.
Proof.
  simpl.
  assert (Hh := record_all_history C events
                  (setMaxHistorySize (Z.of_nat C) new_EventManager) eq_refl eq_refl).
  unfold getHistory. simpl. rewrite Hh.
  assert (Hs : slice (- Z.of_nat (length events))
                 (drop (length events - C) events) = drop (length events - C) events).
  { destruct events as [| e events'] eqn:He; [done |]. rewrite <- He.
    rewrite slice_last by (rewrite He; simpl; lia).
    rewrite length_drop, Nat2Z.id.
    replace (length events - (length events - C) - length events)%nat with 0%nat by lia.
    done. }
  rewrite Hs. split; [done |]. rewrite length_drop. lia.
Qed.

(** For a positive limit the query gives the last [limit] matching
    entries, in insertion order. *)
Lemma getHistory_positive_limit kind limit m :
  0 < limit ->
  let matching :=
    match kind with
    | Some k => if String.eqb k "" then eventHistory m
                else List.filter (fun e => String.eqb (type e) k) (eventHistory m)
    | None => eventHistory m
    end in
  getHistory kind (Some limit) m = drop (length matching - Z.to_nat limit) matching /\
  Z.of_nat (length (getHistory kind (Some limit) m)) <= limit.
Proof.
  intros Hpos. simpl. unfold getHistory. simpl.
  rewrite slice_last by done. split; [done |]. rewrite length_drop. lia.
Qed.

(* ===================================================================== *)
(** * Loops over sets that the body leaves alone *)
(* ===================================================================== *)

Lemma visited_all xs : visited (fun _ => true) xs = xs.
Proof. induction xs as [| x xs IH]; simpl; congruence. Qed.

Lemma visited_forallb_true go_on xs :
  forallb go_on xs = true -> visited go_on xs = xs.
Proof.
  induction xs as [| x xs IH]; simpl; [done |].
  intros [Hx Hxs]%andb_prop. rewrite Hx. f_equal. auto.
Qed.

Lemma set_live_cons_some x (s : JSSet) : set_live (Some x :: s) = x :: set_live s.
Proof. reflexivity. Qed.

Lemma set_live_cons_none (s : JSSet) : set_live (None :: s) = set_live s.
Proof. reflexivity. Qed.

Lemma set_live_drop_elem (s : JSSet) i x :
  x ∈ set_live (drop i s) -> x ∈ set_live s.
Proof.
  unfold set_live. rewrite !list_elem_of_omap.
  intros (e & He & Hx). exists e. split; [| done].
  rewrite <- (take_drop i s). apply elem_of_app. by right.
Qed.

(** A loop whose body keeps the set it walks (and an invariant [P] of the
    world) visits the live entries in order, from the index on, until the
    body asks to stop; fuel above the number of slots is enough. *)
Lemma for_of_stable (r : SetRef) (s : JSSet) (body : nat -> M bool)
    (P : World -> Prop) (go_on : nat -> bool) (obs : nat -> list Obs) :
  (forall w, P w -> deref r (hub w) = s) ->
  (forall x w, x ∈ set_live s -> P w ->
     exists w', body x w = Some (Normal (go_on x), w') /\
                trace w' = trace w ++ obs x /\ P w') ->
  forall fuel i w,
    P w -> (length s - i < fuel)%nat ->
    exists w',
      for_of fuel r i body w
        = Some (Normal (forallb go_on (set_live (drop i s))), w') /\
      trace w' = trace w ++ flat_map obs (visited go_on (set_live (drop i s))) /\
      P w'.
Proof.
  intros Hset Hbody fuel.
  induction fuel as [| fuel IH]; intros i w HP Hfuel; [lia |].
  simpl. rewrite (Hset w HP).
  destruct (s !! i) as [[x |] |] eqn:Hi.
  - rewrite (drop_S _ _ _ Hi), set_live_cons_some. simpl.
    assert (Hx : x ∈ set_live s).
    { apply (set_live_drop_elem s i). rewrite (drop_S _ _ _ Hi), set_live_cons_some.
      apply list_elem_of_here. }
    destruct (Hbody x w Hx HP) as (w1 & Hrun & Htr & HP1).
    unfold mbind, M_bind. rewrite Hrun.
    destruct (go_on x) eqn:Hgo.
    + apply lookup_lt_Some in Hi.
      destruct (IH (S i) w1 HP1 ltac:(lia)) as (w2 & Hrun2 & Htr2 & HP2).
      exists w2. split; [exact Hrun2 |]. split; [| exact HP2].
      rewrite Htr2, Htr, <- app_assoc. done.
    + exists w1. split; [done |]. split; [| done].
      rewrite Htr. simpl. by rewrite app_nil_r.
  - rewrite (drop_S _ _ _ Hi), set_live_cons_none.
    apply lookup_lt_Some in Hi. apply IH; [done | lia].
  - apply lookup_ge_None in Hi. rewrite drop_ge by lia. simpl.
    exists w. split; [done |]. split; [by rewrite app_nil_r | done].
Qed.

(* ===================================================================== *)
(** * The steps of [emit] *)
(* ===================================================================== *)

Section EmitFacts.

Variable react : nat -> MinecraftEvent -> Reaction.
Variable accepts : nat -> MinecraftEvent -> bool.

(** The guarded call in the two fan-out loops: whatever the listener
    does, the loop body completes normally and goes on. *)
Lemma guarded_call_run scope message l event w :
  (try_catch (call_listener react scope l event)
     (fun error => tell (ConsoleError message error));;
   ret true) w
  = Some (Normal true,
          {| hub := apply_ops (ops (react l event)) (hub w);
             trace := trace w ++ fanout_obs react scope message event l |}).
Proof.
  unfold fanout_obs, call_listener, try_catch, mbind, M_bind, tell, modify_hub,
    throw, ret, observe, update_hub.
  simpl. destruct (outcome (react l event)); simpl; [done |].
  by rewrite <- app_assoc.
Qed.

Lemma call_filter_run f event w :
  call_filter accepts f event w
  = Some (Normal (accepts f event),
          {| hub := hub w; trace := trace w ++ [FilterRan f event] |}).
Proof. reflexivity. Qed.

(** The filter loop: the filters are asked in insertion order up to the
    first that rejects, and the hub is untouched. *)
Lemma filter_loop_run fuel event w :
  (length (filters (hub w)) < fuel)%nat ->
  for_of fuel FiltersSet 0 (fun f => call_filter accepts f event) w
  = Some (Normal (forallb (fun f => accepts f event) (set_live (filters (hub w)))),
          {| hub := hub w;
             trace := trace w ++
               map (fun f => FilterRan f event)
                 (visited (fun f => accepts f event) (set_live (filters (hub w)))) |}).
Proof.
  intros Hfuel.
  destruct (for_of_stable FiltersSet (filters (hub w))
              (fun f => call_filter accepts f event)
              (fun w' => hub w' = hub w)
              (fun f => accepts f event)
              (fun f => [FilterRan f event])) with (fuel := fuel) (i := 0%nat) (w := w)
    as (w' & Hrun & Htr & Hhub).
  - intros w' Hw'. simpl. by rewrite Hw'.
  - intros f w' _ Hw'. eexists. split; [apply call_filter_run |]. done.
  - done.
  - lia.
  - rewrite drop_0 in Hrun, Htr. rewrite Hrun. do 2 f_equal.
    destruct w' as [h t]. simpl in *. subst h. f_equal. rewrite Htr. by f_equal.
Qed.

End EmitFacts.

Lemma visited_reject go_on xs f :
  f ∈ xs -> go_on f = false ->
  exists before g rest,
    xs = before ++ g :: rest /\ forallb go_on before = true /\ go_on g = false /\
    visited go_on xs = before ++ [g] /\ forallb go_on xs = false.
Proof.
  induction xs as [| x xs IH]; intros Hin Hf; [by apply elem_of_nil in Hin |].
  destruct (go_on x) eqn:Hx.
  - apply elem_of_cons in Hin as [-> | Hin]; [congruence |].
    destruct (IH Hin Hf) as (before & g & rest & -> & Hb & Hg & Hv & Hall).
    exists (x :: before), g, rest. simpl. rewrite Hx, Hb, Hv. simpl in Hall.
    repeat split; try done.
  - exists [], x, xs. simpl. rewrite Hx. done.
Qed.

Lemma slice_sublist {A} start (l : list A) x : x ∈ slice start l -> x ∈ l.
Proof.
  unfold slice. set (k := Z.to_nat _). intros Hx.
  rewrite <- (take_drop k l). apply elem_of_app. by right.
Qed.

(** A query only returns entries of the buffer. *)
Lemma getHistory_from_buffer kind limit m e :
  e ∈ getHistory kind limit m -> e ∈ eventHistory m.
Proof.
  unfold getHistory. intros He%slice_sublist.
  destruct kind as [k |]; [| done].
  destruct (String.eqb k ""); [done |].
  apply list_elem_of_In in He. apply filter_In in He as [He _].
  by apply list_elem_of_In.
Qed.

Section Rejection.

Variable react : nat -> MinecraftEvent -> Reaction.
Variable accepts : nat -> MinecraftEvent -> bool.

(** When the filter loop stops on a rejection, [emit] returns there. *)
Lemma emit_rejected fuel event w :
  (length (filters (hub w)) < fuel)%nat ->
  forallb (fun f => accepts f event) (set_live (filters (hub w))) = false ->
  emit react accepts fuel event w
  = Some (Normal tt,
          {| hub := hub w;
             trace := trace w ++
               map (fun f => FilterRan f event)
                 (visited (fun f => accepts f event) (set_live (filters (hub w)))) |}).
Proof.
  intros Hfuel Hrej. unfold emit, mbind, M_bind.
  rewrite (filter_loop_run accepts fuel event w Hfuel), Hrej. done.
Qed.

End Rejection.

Lemma listeners_run_app scope t1 t2 :
  listeners_run scope (t1 ++ t2) = listeners_run scope t1 ++ listeners_run scope t2.
Proof. unfold listeners_run. apply omap_app. Qed.

Lemma listeners_run_filters scope event fs :
  listeners_run scope (map (fun f => FilterRan f event) fs) = [].
Proof. induction fs as [| f fs IH]; [done |]. exact IH. Qed.

(* ===================================================================== *)
(** * Fan-out when no listener touches the registry *)
(* ===================================================================== *)

Lemma same_registry_refl m : same_registry m m.
Proof. by repeat split. Qed.

Lemma same_registry_trans m1 m2 m3 :
  same_registry m1 m2 -> same_registry m2 m3 -> same_registry m1 m3.
Proof. intros (? & ? & ?) (? & ? & ?). repeat split; congruence. Qed.

Lemma addToHistory_registry event m : same_registry (addToHistory event m) m.
Proof. unfold addToHistory. by case_match. Qed.

Lemma apply_op_registry op m :
  registry_op op = false -> same_registry (apply_op op m) m.
Proof. destruct op; simpl; intros; try discriminate; by repeat split. Qed.

Lemma apply_ops_registry ops m :
  forallb (fun op => negb (registry_op op)) ops = true ->
  same_registry (apply_ops ops m) m.
Proof.
  revert m. induction ops as [| op ops IH]; intros m Hq; [apply same_registry_refl |].
  simpl in Hq. apply andb_prop in Hq as [Hop Hops]. apply negb_true_iff in Hop.
  unfold apply_ops. simpl. eapply same_registry_trans; [apply (IH _ Hops) |].
  by apply apply_op_registry.
Qed.

Lemma deref_registry r m m' :
  r <> FiltersSet -> same_registry m m' -> deref r m = deref r m'.
Proof. intros Hr (Hl & Hh & Hg). destruct r; simpl; congruence. Qed.

Lemma bind_run {A B} (c : M A) (k : A -> M B) w a w' :
  c w = Some (Normal a, w') -> (x ← c; k x) w = k a w'.
Proof. intros Hc. unfold mbind, M_bind. by rewrite Hc. Qed.

Section QuietFanout.

Variable react : nat -> MinecraftEvent -> Reaction.
Variable accepts : nat -> MinecraftEvent -> bool.

(** One fan-out loop over a set none of whose members touches the
    registry: every member is called once, in insertion order. *)
Lemma fanout_loop_quiet r scope message event fuel w m :
  r <> FiltersSet ->
  same_registry (hub w) m ->
  (forall l, l ∈ set_live (deref r m) -> leaves_registry (react l event) = true) ->
  (length (deref r m) < fuel)%nat ->
  exists w',
    for_of fuel r 0 (fun listener =>
      try_catch (call_listener react scope listener event)
        (fun error => tell (ConsoleError message error));;
      ret true) w
    = Some (Normal true, w') /\
    trace w' = trace w ++ flat_map (fanout_obs react scope message event)
                            (set_live (deref r m)) /\
    same_registry (hub w') m.
Proof.
  intros Hr Hreg Hquiet Hfuel.
  destruct (for_of_stable r (deref r m)
              (fun listener =>
                 try_catch (call_listener react scope listener event)
                   (fun error => tell (ConsoleError message error));;
                 ret true)
              (fun w' => same_registry (hub w') m)
              (fun _ => true)
              (fanout_obs react scope message event))
    with (fuel := fuel) (i := 0%nat) (w := w) as (w' & Hrun & Htr & HP).
  - intros w0 Hw0. by apply deref_registry.
  - intros l w0 Hl Hw0. eexists. split; [apply guarded_call_run |].
    split; [done |]. simpl.
    eapply same_registry_trans; [| exact Hw0].
    apply apply_ops_registry. by apply Hquiet.
  - done.
  - lia.
  - rewrite drop_0, visited_all in Htr. rewrite drop_0 in Hrun.
    exists w'. split; [| done].
    rewrite Hrun. do 3 f_equal.
    generalize (set_live (deref r m)). intros l. by induction l.
Qed.

(** An accepted emission on a hub whose listeners leave the registry
    alone returns normally, having asked every filter, stored the event,
    then called every listener of the kind and every wildcard listener
    once, in insertion order, whether or not they threw. *)
Lemma emit_quiet fuel event w :
  forallb (fun f => accepts f event) (set_live (filters (hub w))) = true ->
  (forall l, l ∈ kind_listeners (type event) (hub w) ->
             leaves_registry (react l event) = true) ->
  (forall l, l ∈ set_live (globalListeners (hub w)) ->
             leaves_registry (react l event) = true) ->
  enough_fuel fuel event (hub w) ->
  exists w',
    emit react accepts fuel event w = Some (Normal tt, w') /\
    trace w' = trace w
      ++ map (fun f => FilterRan f event) (set_live (filters (hub w)))
      ++ flat_map (fanout_obs react KindSpecific
                     ("Error in event listener for " +:+ type event +:+ ":") event)
           (kind_listeners (type event) (hub w))
      ++ flat_map (fanout_obs react Wildcard "Error in global event listener:" event)
           (set_live (globalListeners (hub w))) /\
    same_registry (hub w') (hub w).
Proof.
  intros Hpass Hkind Hglobal (Hf1 & Hf2 & Hf3).
  unfold emit.
  erewrite bind_run by (apply filter_loop_run; exact Hf1).
  rewrite Hpass, (visited_forallb_true _ _ Hpass).
  set (w1 := {| hub := hub w; trace := _ |}).
  erewrite bind_run by reflexivity.
  erewrite bind_run by reflexivity.
  set (w2 := update_hub (addToHistory event) w1).
  assert (Hreg2 : same_registry (hub w2) (hub w)) by apply addToHistory_registry.
  assert (Hl2 : listeners (hub w2) = listeners (hub w)) by apply Hreg2.
  rewrite Hl2.
  assert (Hkindloop : exists w3,
    (match listeners (hub w) !! type event with
     | Some a =>
         for_of fuel (HeapSet a) 0 (fun listener =>
           try_catch (call_listener react KindSpecific listener event)
             (fun error =>
                tell (ConsoleError
                        ("Error in event listener for " +:+ type event +:+ ":")
                        error));;
           ret true);;
         ret tt
     | None => ret tt
     end) w2 = Some (Normal tt, w3) /\
    trace w3 = trace w2 ++
      flat_map (fanout_obs react KindSpecific
                  ("Error in event listener for " +:+ type event +:+ ":") event)
        (kind_listeners (type event) (hub w)) /\
    same_registry (hub w3) (hub w)).
  { unfold kind_listeners, kind_slots in *.
    destruct (listeners (hub w) !! type event) as [a |] eqn:Ha.
    - destruct (fanout_loop_quiet (HeapSet a) KindSpecific
                  ("Error in event listener for " +:+ type event +:+ ":")
                  event fuel w2 (hub w)) as (w3 & Hrun & Htr & Hreg3);
        [done | done | exact Hkind | exact Hf2 |].
      exists w3. split; [| done]. by erewrite bind_run by exact Hrun.
    - exists w2. split; [done |]. split; [by rewrite app_nil_r | done]. }
  destruct Hkindloop as (w3 & Hrun3 & Htr3 & Hreg3).
  erewrite bind_run by exact Hrun3.
  destruct (fanout_loop_quiet GlobalSet Wildcard "Error in global event listener:"
              event fuel w3 (hub w)) as (w4 & Hrun4 & Htr4 & Hreg4);
    [done | done | exact Hglobal | exact Hf3 |].
  erewrite bind_run by exact Hrun4.
  exists w4. split; [done |]. split; [| done].
  rewrite Htr4, Htr3. subst w2 w1. simpl. by rewrite <- !app_assoc.
Qed.

End QuietFanout.

(* ===================================================================== *)
(** * Listener failures do not steer the fan-out *)
(* ===================================================================== *)

Lemma without_console_app t1 t2 :
  without_console (t1 ++ t2) = without_console t1 ++ without_console t2.
Proof. unfold without_console. apply List.filter_app. Qed.

Lemma listeners_run_without_console scope t :
  listeners_run scope (without_console t) = listeners_run scope t.
Proof.
  induction t as [| o t IH]; [done |].
  destruct o as [f e | s l e | message error]; simpl;
    try (destruct s, scope); simpl; by rewrite ?IH.
Qed.

Lemma alike_listeners_run scope w1 w2 :
  alike w1 w2 -> listeners_run scope (trace w1) = listeners_run scope (trace w2).
Proof.
  intros [_ Ht].
  by rewrite <- (listeners_run_without_console scope (trace w1)), Ht,
    listeners_run_without_console.
Qed.

Lemma alike_refl w : alike w w.
Proof. by split. Qed.

(** Loops whose bodies keep worlds alike keep them alike. *)
Lemma for_of_alike r (body1 body2 : nat -> M bool) :
  (forall x w1 w2, alike w1 w2 -> alike_runs (body1 x w1) (body2 x w2)) ->
  forall fuel i w1 w2,
    alike w1 w2 ->
    alike_runs (for_of fuel r i body1 w1) (for_of fuel r i body2 w2).
Proof.
  intros Hbody fuel.
  induction fuel as [| fuel IH]; intros i w1 w2 Hw; [done |].
  simpl. destruct Hw as [Hhub Htr]. rewrite <- Hhub.
  destruct (deref r (hub w1) !! i) as [[x |] |].
  - specialize (Hbody x w1 w2 (conj Hhub Htr)).
    unfold mbind, M_bind.
    destruct (body1 x w1) as [[[b1 | e1] v1] |], (body2 x w2) as [[[b2 | e2] v2] |];
      simpl in Hbody; try done.
    destruct Hbody as [<- Hv]. destruct b1; [by apply IH | done].
  - by apply IH.
  - done.
Qed.

Lemma alike_bind {A B} (c1 c2 : M A) (k1 k2 : A -> M B) w1 w2 :
  alike_runs (c1 w1) (c2 w2) ->
  (forall a v1 v2, alike v1 v2 -> alike_runs (k1 a v1) (k2 a v2)) ->
  alike_runs ((x ← c1; k1 x) w1) ((x ← c2; k2 x) w2).
Proof.
  intros Hc Hk. unfold mbind, M_bind.
  destruct (c1 w1) as [[[a1 | e1] v1] |], (c2 w2) as [[[a2 | e2] v2] |];
    simpl in Hc; try done.
  destruct Hc as [<- Hv]. by apply Hk.
Qed.

Lemma alike_ret {A} (a : A) w1 w2 : alike w1 w2 -> alike_runs (ret a w1) (ret a w2).
Proof. by split. Qed.

Lemma alike_modify_hub f w1 w2 :
  alike w1 w2 -> alike_runs (modify_hub f w1) (modify_hub f w2).
Proof. intros [Hhub Htr]. split; [done |]. split; simpl; congruence. Qed.

Lemma alike_read_hub {A} (f : EventManager -> A) w1 w2 :
  alike w1 w2 -> alike_runs (read_hub f w1) (read_hub f w2).
Proof. intros [Hhub Htr]. split; [simpl; congruence |]. by split. Qed.

Section Isolation.

Variable react : nat -> MinecraftEvent -> Reaction.
Variable accepts : nat -> MinecraftEvent -> bool.

Lemma fanout_obs_without_console scope message event l :
  without_console (fanout_obs react scope message event l)
  = [ListenerRan scope l event].
Proof. unfold fanout_obs. by destruct (outcome (react l event)). Qed.

(** The guarded call with the listeners as they are and with the
    listeners calmed. *)
Lemma guarded_call_alike scope message l event w1 w2 :
  alike w1 w2 ->
  alike_runs
    ((try_catch (call_listener react scope l event)
        (fun error => tell (ConsoleError message error));;
      ret true) w1)
    ((try_catch (call_listener (calm react) scope l event)
        (fun error => tell (ConsoleError message error));;
      ret true) w2).
Proof.
  intros [Hhub Htr]. rewrite !guarded_call_run. simpl.
  split; [done |]. split; simpl; [by rewrite Hhub |].
  rewrite !without_console_app, !fanout_obs_without_console. by rewrite Htr.
Qed.

Lemma call_filter_alike f event w1 w2 :
  alike w1 w2 ->
  alike_runs (call_filter accepts f event w1) (call_filter accepts f event w2).
Proof.
  intros [Hhub Htr]. rewrite !call_filter_run. simpl.
  split; [done |]. split; simpl; [done |].
  by rewrite !without_console_app, Htr.
Qed.

(** [emit] with the listeners as they are and with the same listeners
    calmed. *)
Lemma emit_alike fuel event w1 w2 :
  alike w1 w2 ->
  alike_runs (emit react accepts fuel event w1)
             (emit (calm react) accepts fuel event w2).
Proof.
  intros Hw. unfold emit.
  apply alike_bind.
  { apply for_of_alike; [| done]. intros; by apply call_filter_alike. }
  intros [|] v1 v2 Hv; [| by apply alike_ret].
  apply alike_bind; [by apply alike_modify_hub |].
  intros _ u1 u2 Hu.
  apply alike_bind; [by apply alike_read_hub |].
  intros typeListeners x1 x2 Hx.
  apply alike_bind.
  { destruct typeListeners as [a |]; [| by apply alike_ret].
    apply alike_bind; [| intros; by apply alike_ret].
    apply for_of_alike; [| done]. intros; by apply guarded_call_alike. }
  intros _ y1 y2 Hy.
  apply alike_bind; [| intros; by apply alike_ret].
  apply for_of_alike; [| done]. intros; by apply guarded_call_alike.
Qed.

End Isolation.

(* ===================================================================== *)
(** * A set holds a value once *)
(* ===================================================================== *)

Lemma set_live_app (s1 s2 : JSSet) : set_live (s1 ++ s2) = set_live s1 ++ set_live s2.
Proof. apply omap_app. Qed.

Lemma set_has_live x (s : JSSet) : set_has x s = true <-> x ∈ set_live s.
Proof.
  induction s as [| [y |] s IH].
  - split; [done | by intros ?%elem_of_nil].
  - rewrite set_live_cons_some, elem_of_cons, <- IH. unfold set_has. simpl.
    by rewrite orb_true_iff, Nat.eqb_eq.
  - rewrite set_live_cons_none. exact IH.
Qed.

Lemma set_add_live x (s : JSSet) :
  set_live (set_add x s) = if set_has x s then set_live s else set_live s ++ [x].
Proof. unfold set_add. destruct (set_has x s); [done |]. by rewrite set_live_app. Qed.

Lemma set_delete_live x (s : JSSet) :
  set_live (set_delete x s) = List.filter (fun y => negb (Nat.eqb x y)) (set_live s).
Proof.
  induction s as [| [y |] s IH]; [done | |].
  - change (set_delete x (Some y :: s))
      with ((if Nat.eqb x y then None else Some y) :: set_delete x s).
    rewrite (set_live_cons_some y s). cbn [List.filter].
    destruct (Nat.eqb x y); cbn [negb].
    + rewrite set_live_cons_none. exact IH.
    + rewrite set_live_cons_some. by f_equal.
  - change (set_delete x (None :: s)) with (None :: set_delete x s).
    rewrite !set_live_cons_none. exact IH.
Qed.

Lemma set_clear_live (s : JSSet) : set_live (set_clear s) = [].
Proof. induction s as [| e s IH]; [done | exact IH]. Qed.

(** A [Set] holds a value at most once. *)
Lemma set_add_nodup x (s : JSSet) : NoDup (set_live s) -> NoDup (set_live (set_add x s)).
Proof.
  intros Hs. rewrite set_add_live. destruct (set_has x s) eqn:Hx; [done |].
  apply NoDup_app. split; [done |]. split; [| apply NoDup_singleton].
  intros y Hy ->%list_elem_of_singleton.
  apply set_has_live in Hy. congruence.
Qed.

Lemma set_delete_nodup x (s : JSSet) :
  NoDup (set_live s) -> NoDup (set_live (set_delete x s)).
Proof.
  intros Hs. rewrite set_delete_live.
  apply NoDup_ListNoDup, List.NoDup_filter. by apply NoDup_ListNoDup.
Qed.

Lemma reachable_wildcards_nodup m :
  reachable m -> NoDup (set_live (globalListeners m)).
Proof.
  induction 1 as [| op m _ IH | event m _ IH].
  - apply NoDup_nil_2.
  - destruct op as [k l | k l | | | | |]; simpl; try done.
    + unfold on. destruct (String.eqb k "*"); simpl; [by apply set_add_nodup |].
      by repeat case_match.
    + unfold off. destruct (String.eqb k "*"); simpl; [by apply set_delete_nodup |].
      by case_match.
    + rewrite set_clear_live. apply NoDup_nil_2.
  - unfold addToHistory. by case_match.
Qed.



(* ===================================================================== *)
(** * Hubs without filters and listeners *)
(* ===================================================================== *)

(** On a hub with no filter and no listener, [emit] is [addToHistory]. *)
Lemma emit_bare react accepts fuel event m t :
  bare m ->
  emit react accepts (S fuel) event {| hub := m; trace := t |}
  = Some (Normal tt, {| hub := addToHistory event m; trace := t |}).
Proof.
  intros (Hf & Hl & Hg).
  assert (Hreg : same_registry (addToHistory event m) m) by apply addToHistory_registry.
  destruct Hreg as (Hl' & _ & Hg').
  unfold emit, mbind, M_bind. simpl. rewrite Hf. simpl.
  unfold update_hub. simpl. rewrite Hl', Hl, lookup_empty. simpl.
  by rewrite Hg', Hg.
Qed.

Lemma addToHistory_bare event m : bare m -> bare (addToHistory event m).
Proof.
  intros (Hf & Hl & Hg). unfold bare, addToHistory.
  case_match; simpl; by rewrite Hf, Hl, Hg.
Qed.

Lemma emit_all_bare react accepts fuel events m t :
  bare m ->
  emit_all react accepts (S fuel) events {| hub := m; trace := t |}
  = Some (Normal tt, {| hub := record_all events m; trace := t |}).
Proof.
  revert m. induction events as [| e events IH]; intros m Hbare; [done |].
  simpl. unfold mbind, M_bind. rewrite emit_bare by done.
  by rewrite IH by (by apply addToHistory_bare).
Qed.

(** The history bound for a capacity [C] set before the run: after [K]
    accepted emissions the buffer holds at most [C] entries, and
    [getHistory(undefined, K)] gives the last [min K C] events of the run,
    in order. *)
Lemma history_bound_fixed_capacity react accepts (C : nat) events :
  exists w,
    emit_all react accepts 1 events
      (start (setMaxHistorySize (Z.of_nat C) new_EventManager)) = Some (Normal tt, w) /\
    (length (eventHistory (hub w)) <= C)%nat /\
    getHistory None (Some (Z.of_nat (length events))) (hub w)
    = drop (length events - C) events /\
    length (getHistory None (Some (Z.of_nat (length events))) (hub w))
    = Nat.min (length events) C.
Proof.
  eexists. split; [by apply emit_all_bare |]. simpl hub.
  destruct (history_after_emissions C events) as [Hq Hlen].
  split; [| by split].
  rewrite (record_all_history C) by done. rewrite length_drop. lia.
Qed.

(* ===================================================================== *)
(** * Properties of the dispatch hub *)
(* ===================================================================== *)

(** C1. History bound.  The bound [length <= N] is lost when the capacity
    is lowered under the current length: after three accepted emissions
    on a new hub, [setMaxHistorySize 1] leaves three entries in a buffer
    of capacity one, and the next emission pushes one entry and shifts
    one, so three remain. *)
Theorem history_exceeds_lowered_capacity :
  exists w3 w4,
    emit_all idle pass 1 [sample 1; sample 2; sample 3] (start new_EventManager)
      = Some (Normal tt, w3) /\
    eventHistory (setMaxHistorySize 1 (hub w3)) = [sample 1; sample 2; sample 3] /\
    maxHistorySize (setMaxHistorySize 1 (hub w3)) = 1 /\
    emit idle pass 1 (sample 4) (start (setMaxHistorySize 1 (hub w3)))
      = Some (Normal tt, w4) /\
    eventHistory (hub w4) = [sample 2; sample 3; sample 4] /\
    maxHistorySize (hub w4) = 1 /\
    (3 > maxHistorySize (hub w4)).
Proof. do 2 eexists. repeat split; vm_compute; reflexivity. Qed.

(** C8. History query.  A limit of zero does not trim: [slice(-0)] is
    [slice(0)], so the whole buffer comes back. *)
Theorem getHistory_zero_limit_returns_everything :
  exists w,
    emit_all idle pass 1 [sample 1; sample 2] (start new_EventManager)
      = Some (Normal tt, w) /\
    getHistory None (Some 0) (hub w) = [sample 1; sample 2] /\
    getHistory (Some "chat") (Some 0) (hub w) = [sample 1; sample 2] /\
    (Z.of_nat (length (getHistory None (Some 0) (hub w))) > 0).
Proof. eexists. repeat split; vm_compute; reflexivity. Qed.

(** The same for any buffer. *)
Lemma getHistory_zero_limit m : getHistory None (Some 0) m = eventHistory m.
Proof. unfold getHistory. simpl default. apply slice_zero. Qed.

(** A query leaves the hub as it is: it is a function of the hub that
    returns a new array ([filter] and [slice] both copy). *)
Lemma getHistory_order kind limit m :
  sublist (getHistory kind limit m) (eventHistory m).
Proof.
  unfold getHistory, slice.
  etrans; [apply sublist_drop |].
  destruct kind as [k |]; [| done].
  destruct (String.eqb k ""); [done |].
  induction (eventHistory m) as [| e es IH]; [done |].
  simpl. destruct (String.eqb (type e) k); by constructor.
Qed.

(** C3. Filter short-circuit: if a registered filter answers false for
    the event, [emit] returns normally after asking the filters in
    registration order up to the first that rejects and no further; the
    hub is left as it was, so the event is not added to the history and no
    later history query returns it unless it was there before; no
    kind-specific and no wildcard listener is called. *)
Theorem filter_rejection_short_circuits
    (react : nat -> MinecraftEvent -> Reaction)
    (accepts : nat -> MinecraftEvent -> bool)
    (fuel : nat) (event : MinecraftEvent) (w : World) (f : nat) :
  f ∈ set_live (filters (hub w)) ->
  accepts f event = false ->
  (length (filters (hub w)) < fuel)%nat ->
  exists w' before g rest,
    emit react accepts fuel event w = Some (Normal tt, w') /\
    hub w' = hub w /\
    set_live (filters (hub w)) = before ++ g :: rest /\
    forallb (fun f => accepts f event) before = true /\
    accepts g event = false /\
    trace w' = trace w ++ map (fun f => FilterRan f event) (before ++ [g]) /\
    listeners_run KindSpecific (trace w') = listeners_run KindSpecific (trace w) /\
    listeners_run Wildcard (trace w') = listeners_run Wildcard (trace w) /\
    (event ∉ eventHistory (hub w) ->
     forall kind limit, event ∉ getHistory kind limit (hub w')).
Proof.
  intros Hin Hrej Hfuel.
  destruct (visited_reject (fun f => accepts f event) _ f Hin Hrej)
    as (before & g & rest & Hsplit & Hbefore & Hg & Hvisited & Hall).
  eexists _, before, g, rest.
  split; [apply (emit_rejected react accepts fuel event w Hfuel Hall) |].
  simpl. rewrite Hvisited.
  repeat split; try done.
  - by rewrite listeners_run_app, listeners_run_filters, app_nil_r.
  - by rewrite listeners_run_app, listeners_run_filters, app_nil_r.
  - intros Habsent kind limit Hq. apply Habsent.
    by apply getHistory_from_buffer in Hq.
Qed.

(** C3, at a concrete hub: filter 7 accepts, filter 8 rejects, filter 9 is
    not asked. *)
Lemma filter_rejection_short_circuits_witness :
  exists w' before g rest,
    emit idle gate 4 (sample 1) (start gated_hub) = Some (Normal tt, w') /\
    hub w' = gated_hub /\
    set_live (filters gated_hub) = before ++ g :: rest /\
    forallb (fun f => gate f (sample 1)) before = true /\
    gate g (sample 1) = false /\
    trace w' = [] ++ map (fun f => FilterRan f (sample 1)) (before ++ [g]) /\
    listeners_run KindSpecific (trace w') = [] /\
    listeners_run Wildcard (trace w') = [] /\
    (sample 1 ∉ eventHistory gated_hub ->
     forall kind limit, sample 1 ∉ getHistory kind limit (hub w')).
Proof.
  apply (filter_rejection_short_circuits idle gate 4 (sample 1) (start gated_hub) 8%nat).
  - vm_compute. apply list_elem_of_In. simpl. auto.
  - reflexivity.
  - vm_compute. lia.
Defined.


Lemma reachable_chat_hub : reachable chat_hub.
Proof.
  apply (reach_op (OpAddFilter 7%nat)), (reach_op (OpOn "*" 3%nat)),
    (reach_op (OpOn "chat" 2%nat)), (reach_op (OpOn "chat" 1%nat)), reach_new.
Qed.


(* ===================================================================== *)
(** * Properties of the notifier *)
(* ===================================================================== *)

Section NotifierFacts.

Variable toLocaleTimeString : Z -> string.
Variable number_to_string : Q -> string.







End NotifierFacts.


(* ===================================================================== *)
(** * Properties of the bot event registry *)
(* ===================================================================== *)

Section RegistryFacts.

Variable digits : Q -> string.

(** The chat handler drops what the bot said itself. *)
Lemma own_chat_is_dropped bot message st :
  handle digits bot (SigChat (username bot) message) st = (st, []).
Proof. simpl. unfold on_chat. by rewrite String.eqb_refl. Qed.

Lemma other_chat_is_emitted bot sender message st :
  sender <> username bot ->
  exists e, handle digits bot (SigChat sender message) st = (st, [e]) /\
            type e = "chat".
Proof.
  intros Hne. simpl. unfold on_chat.
  destruct (String.eqb_spec sender (username bot)); [done |]. by eexists.
Qed.

(** C6. Self-message suppression.  The whisper handler has no check of the
    sender: a whisper whose sender is the bot's own user name gives one
    chat event, where the chat handler gives none. *)
Theorem own_whisper_is_emitted (bot : Bot) (message : string) (st : BotEventRegistry) :
  handle digits bot (SigChat (username bot) message) st = (st, []) /\
  exists e,
    handle digits bot (SigWhisper (username bot) message) st = (st, [e]) /\
    type e = "chat" /\
    data e = Some [("username", VStr (username bot)); ("message", VStr message);
                   ("isBot", VBool false); ("isWhisper", VBool true)].
Proof. split; [apply own_chat_is_dropped |]. by eexists. Qed.

Lemma run_app signals1 signals2 st :
  run digits (signals1 ++ signals2) st
  = run digits signals1 st ++ run digits signals2 (settle digits signals1 st).
Proof.
  revert st. induction signals1 as [| [bot signal] rest IH]; intros st; [done |].
  simpl. destruct (handle digits bot signal st) as [st' events] eqn:Hh.
  simpl. by rewrite IH.
Qed.

(** Only the spawn handler touches the flag of the [once] registration,
    and it only clears it. *)
Lemma handle_spawn_pending bot signal st :
  spawn_pending (fst (handle digits bot signal st))
  = if is_signal_spawn (bot, signal) then false else spawn_pending st.
Proof.
  destruct signal; simpl; try done.
  - unfold on_spawn. by destruct (spawn_pending st) eqn:Hp.
  - unfold on_move. by repeat case_match.
Qed.

Lemma settle_spawn_pending signals st :
  spawn_pending (settle digits signals st)
  = if existsb is_signal_spawn signals then false else spawn_pending st.
Proof.
  revert st. induction signals as [| [bot signal] rest IH]; intros st; [done |].
  simpl settle. rewrite IH, handle_spawn_pending. simpl existsb.
  destruct (is_signal_spawn (bot, signal)); simpl; by destruct (existsb _ rest).
Qed.

(** The move handler alone stores the time of a move, and only it gives
    move events. *)
Lemma handle_move_effect bot signal st :
  let moves := List.filter (fun e => String.eqb (type e) "move")
                 (snd (handle digits bot signal st)) in
  (lastMoveTime (fst (handle digits bot signal st)) = lastMoveTime st /\ moves = []) \/
  (signal = SigMove /\ 500 <= move_now bot - lastMoveTime st /\
   lastMoveTime (fst (handle digits bot signal st)) = move_now bot /\
   ((bot_position bot = None /\ moves = []) \/
    (is_Some (bot_position bot) /\
     exists e, moves = [e] /\ snd (handle digits bot signal st) = [e] /\
               timestamp e = now bot))).
Proof.
  destruct signal; simpl;
    try (left; split; [reflexivity | reflexivity]).
  - left. unfold on_spawn. by destruct (spawn_pending st).
  - left. unfold on_chat. by destruct (String.eqb sender (username bot)).
  - left. unfold on_blockUpdate. by repeat case_match.
  - left. unfold on_blockBreakProgressObserved. by case_match.
  - left. unfold on_updateSlot. by case_match.
  - unfold on_move.
    destruct (Z.ltb_spec (move_now bot - lastMoveTime st) 500) as [Hlt | Hge].
    + by left.
    + right. split; [done |]. split; [done |].
      destruct (bot_position bot) as [p |]; simpl.
      * split; [done |]. right. split; [by eexists |]. by eexists.
      * split; [done |]. by left.
Qed.

Lemma move_times_cons events outputs :
  move_times (events :: outputs)
  = map timestamp (List.filter (fun e => String.eqb (type e) "move") events)
    ++ move_times outputs.
Proof. unfold move_times. simpl. by rewrite List.filter_app, map_app. Qed.

Lemma run_cons bot signal rest st :
  run digits ((bot, signal) :: rest) st
  = snd (handle digits bot signal st)
    :: run digits rest (fst (handle digits bot signal st)).
Proof. simpl. by destruct (handle digits bot signal st). Qed.

Lemma existsb_filter {A} (f : A -> bool) (l : list A) :
  existsb f l = match List.filter f l with [] => false | _ => true end.
Proof. induction l as [| x l IH]; [done |]. simpl. by destruct (f x). Qed.

Lemma move_reads_cons bot signal rest st :
  move_reads digits ((bot, signal) :: rest) st
  = (match List.filter (fun e => String.eqb (type e) "move")
             (snd (handle digits bot signal st)) with
     | [] => []
     | _ => [move_now bot]
     end)
    ++ move_reads digits rest (fst (handle digits bot signal st)).
Proof.
  simpl. rewrite existsb_filter.
  by destruct (List.filter _ (snd (handle digits bot signal st))).
Qed.

(** There is one reading of the handler for every move event of a run. *)
Lemma move_reads_length signals st :
  length (move_reads digits signals st) = length (move_times (run digits signals st)).
Proof.
  revert st. induction signals as [| [bot signal] rest IH]; intros st; [done |].
  rewrite run_cons, move_times_cons, move_reads_cons, !length_app, length_map, IH.
  destruct (handle_move_effect bot signal st)
    as [[_ ->] | (_ & _ & _ & [[_ ->] | (_ & e & -> & _ & _)])]; done.
Qed.

(** The handler's reading at every move event of a run is at least 500 ms
    after the stored time the run starts with, and after the reading at
    every earlier one. *)
Lemma run_move_reads_spaced signals st :
  Forall (fun u => 500 <= u - lastMoveTime st) (move_reads digits signals st) /\
  spaced 500 (move_reads digits signals st).
Proof.
  revert st. induction signals as [| [bot signal] rest IH]; intros st.
  - split; [apply Forall_nil_2 | done].
  - rewrite move_reads_cons.
    destruct (IH (fst (handle digits bot signal st))) as [IHlate IHspaced].
    destruct (handle_move_effect bot signal st)
      as [[Hsame ->] | (_ & Hopen & Hstored & [[_ ->] | (_ & e & -> & _ & Hstamp)])];
      simpl.
    + by rewrite <- Hsame.
    + split; [| done]. eapply Forall_impl; [exact IHlate |].
      intros u Hu. simpl in Hu. lia.
    + rewrite Hstored in IHlate. split; [| done].
      apply Forall_cons. split; [lia |].
      eapply Forall_impl; [exact IHlate |]. intros u Hu. simpl in Hu. lia.
Qed.

(** The stamps: [createAndEmit] reads the clock after the handler did.
    When it is answered at most [d] ms more, two move events are stamped
    at least [500 - d] ms apart. *)
Lemma run_move_times_spaced d signals st :
  (forall b, (b, SigMove) ∈ signals -> move_now b <= now b <= move_now b + d) ->
  Forall (fun u => 500 <= u - lastMoveTime st) (move_times (run digits signals st)) /\
  spaced (500 - d) (move_times (run digits signals st)).
Proof.
  revert st. induction signals as [| [bot signal] rest IH]; intros st Hclock.
  - split; [apply Forall_nil_2 | done].
  - assert (Hrest : forall b, (b, SigMove) ∈ rest -> move_now b <= now b <= move_now b + d)
      by (intros b Hin; apply (Hclock b); by apply list_elem_of_further).
    rewrite run_cons, move_times_cons.
    destruct (IH (fst (handle digits bot signal st)) Hrest) as [IHlate IHspaced].
    destruct (handle_move_effect bot signal st)
      as [[Hsame ->] | (Hmove & Hopen & Hstored & [[_ ->] | (_ & e & -> & _ & Hstamp)])];
      simpl.
    + by rewrite <- Hsame.
    + split; [| done]. eapply Forall_impl; [exact IHlate |].
      intros u Hu. simpl in Hu. lia.
    + assert (Hbot : move_now bot <= now bot <= move_now bot + d)
        by (apply (Hclock bot); rewrite <- Hmove; apply list_elem_of_here).
      rewrite Hstored in IHlate. rewrite Hstamp. split.
      * apply Forall_cons. split; [lia |].
        eapply Forall_impl; [exact IHlate |]. intros u Hu. simpl in Hu. lia.
      * split; [| done].
        eapply Forall_impl; [exact IHlate |]. intros u Hu. simpl in Hu. lia.
Qed.

Lemma last_cons_default {A} (x d : A) (l : list A) :
  List.last (x :: l) d = List.last l x.
Proof.
  revert x d. induction l as [| y l IH]; intros x d; [done |].
  change (List.last (x :: y :: l) d) with (List.last (y :: l) d).
  by rewrite !IH.
Qed.

(** While the bot has a position at every signal, the stored time is the
    handler's reading at the last move event given so far (or what it
    was at the start, when there is none). *)
Lemma stored_time_is_last_read signals st :
  (forall b, (b, SigMove) ∈ signals -> is_Some (bot_position b)) ->
  lastMoveTime (settle digits signals st)
  = List.last (move_reads digits signals st) (lastMoveTime st).
Proof.
  revert st. induction signals as [| [bot signal] rest IH]; intros st Hpos; [done |].
  assert (Hrest : forall b, (b, SigMove) ∈ rest -> is_Some (bot_position b))
    by (intros b Hin; apply (Hpos b); by apply list_elem_of_further).
  rewrite move_reads_cons. simpl settle. rewrite (IH _ Hrest).
  destruct (handle_move_effect bot signal st)
    as [[Hsame ->]
       | (Hmove & Hopen & Hstored & [[Hnone _] | (_ & e & -> & _ & Hstamp)])].
  - by rewrite Hsame.
  - assert (Hbot : is_Some (bot_position bot))
      by (apply (Hpos bot); rewrite <- Hmove; apply list_elem_of_here).
    rewrite Hnone in Hbot. by destruct Hbot.
  - rewrite Hstored. simpl app. by rewrite last_cons_default.
Qed.

Lemma on_move_emits bot st :
  snd (on_move bot st) <> [] <->
  500 <= move_now bot - lastMoveTime st /\ is_Some (bot_position bot).
Proof.
  unfold on_move.
  destruct (Z.ltb_spec (move_now bot - lastMoveTime st) 500) as [Hlt | Hge]; simpl.
  - split; [done | lia].
  - destruct (bot_position bot) as [p |]; simpl.
    + split; [by split | done].
    + split; [done | by intros [_ [? ?]]].
Qed.

(** C7, amended.  (1) A move signal whose reading of the clock by the
    handler is less than 500 ms after the stored time is dropped: no
    event, nothing stored.  (2) Another one stores its reading, whether
    or not the bot has a position, and gives one event when it has one
    and none otherwise; the event is stamped by [createAndEmit], not with
    the handler's reading.  (3) So a move signal gives an event iff at
    least 500 ms have passed since the stored time and the bot has a
    position.  (4, 5) In every run, whatever the other signals, there is
    one reading per move event, and any two of these readings are at
    least 500 ms apart.  (6) When at every move signal the stamp is at
    most [d] ms after the reading of the handler, any two move events are
    stamped at least [500 - d] ms apart.  (7) While the bot has a
    position at every move signal, the stored time is the reading at the
    last move event given (0 before the first).  (8) With the clock at [T >= 500] and a
    position at hand, move signals at [T], [T + 100], [T + 200] and
    [T + 600] give two events, for the first and the last. *)
Theorem move_events_are_rate_limited
    (signals : list (Bot * Signal)) (bot : Bot) (st : BotEventRegistry) :
  (move_now bot - lastMoveTime st < 500 -> on_move bot st = (st, [])) /\
  (500 <= move_now bot - lastMoveTime st ->
   lastMoveTime (fst (on_move bot st)) = move_now bot /\
   (bot_position bot = None -> snd (on_move bot st) = []) /\
   (forall p, bot_position bot = Some p ->
      snd (on_move bot st)
      = [make_event (now bot) "move" INFO "机器人移动"
           (Some [("position", floored p);
                  ("onGround", optional (fun e => VBool (onGround e)) (entity bot))])])) /\
  (snd (on_move bot st) <> [] <->
   500 <= move_now bot - lastMoveTime st /\ is_Some (bot_position bot)) /\
  length (move_reads digits signals registered)
  = length (move_times (run digits signals registered)) /\
  spaced 500 (move_reads digits signals registered) /\
  (forall d,
     (forall b, (b, SigMove) ∈ signals -> move_now b <= now b <= move_now b + d) ->
     spaced (500 - d) (move_times (run digits signals registered))) /\
  ((forall b, (b, SigMove) ∈ signals -> is_Some (bot_position b)) ->
   lastMoveTime (settle digits signals registered)
   = List.last (move_reads digits signals registered) 0) /\
  (forall T p0 p1 p2 p3,
     500 <= T ->
     run digits (four_moves T p0 p1 p2 p3) registered
     = [[move_event T p0]; []; []; [move_event (T + 600) p3]]).
Proof.
  split.
  { intros Hlt. unfold on_move.
    destruct (Z.ltb_spec (move_now bot - lastMoveTime st) 500); [done | lia]. }
  split.
  { intros Hge. unfold on_move.
    destruct (Z.ltb_spec (move_now bot - lastMoveTime st) 500); [lia |].
    destruct (bot_position bot) as [p |]; simpl.
    - split; [done |]. split; [done |]. by intros p' [= <-].
    - split; [done |]. split; [done |]. done. }
  split; [apply on_move_emits |].
  split; [apply move_reads_length |].
  split; [apply run_move_reads_spaced |].
  split; [intros d Hclock; by apply run_move_times_spaced |].
  split; [apply stored_time_is_last_read |].
  intros T p0 p1 p2 p3 HT. unfold four_moves, run, handle, on_move. simpl.
  destruct (Z.ltb_spec (T - 0) 500); [lia |]. simpl.
  destruct (Z.ltb_spec (T + 100 - T) 500); [| lia]. simpl.
  destruct (Z.ltb_spec (T + 200 - T) 500); [| lia]. simpl.
  destruct (Z.ltb_spec (T + 600 - T) 500); [lia |]. done.
Qed.

(** [Math.floor] of a finite number is the integer at or just below it. *)
Lemma Math_floor_finite q :
  exists k, Math_floor (JSFinite q) = JSFinite (inject_Z k) /\
            (inject_Z k <= q)%Q /\ (q < inject_Z (k + 1))%Q.
Proof.
  exists (Qfloor q). split; [done |]. split; [apply Qfloor_le | apply Qlt_floor].
Qed.

Lemma integral_floor n : integral (Math_floor n) = finite n.
Proof.
  destruct n as [q | | s]; [| done | done].
  unfold integral, Math_floor, finite. rewrite Qfloor_Z. apply Qeq_bool_iff. reflexivity.
Qed.

Lemma floored_integral p : integral_position (floored p) = finite_position p.
Proof. unfold integral_position, finite_position. simpl. by rewrite !integral_floor. Qed.

(** The block handlers copy the coordinates of the block as they are. *)
Lemma block_position_is_copied bot old new :
  block_type old <> block_type new ->
  exists e d, on_blockUpdate bot (Some old) new = [e] /\ data e = Some d /\
              assoc "position" d = copied (block_position new).
Proof.
  intros Hne. unfold on_blockUpdate.
  destruct (Z.eqb_spec (block_type old) (block_type new)); [done |].
  by do 2 eexists.
Qed.

(** C9, amended.  In every event built from the position of an entity
    (spawn, entity_hurt, entity_death, entity_spawn, item_drop, death,
    respawn, move, jump), the position of the payload is [undefined] when
    the source has none, and otherwise has each coordinate replaced by
    its [Math.floor]: the integer at or just below a finite coordinate,
    and the coordinate itself when it is [NaN] or an infinity.  So the
    position of the payload is made of integers exactly when the
    coordinates of the source are finite.  Health values are put in the
    payload as they are read. *)
Theorem entity_positions_are_floored (bot : Bot) (st : BotEventRegistry) :
  (forall signal e,
     reads_entity_position signal = true ->
     e ∈ snd (handle digits bot signal st) ->
     exists d, data e = Some d /\
               (source_position bot signal = None ->
                assoc "position" d = VUndefined) /\
               (forall p, source_position bot signal = Some p ->
                  assoc "position" d
                  = VObj [("x", VNum (Math_floor (vx p)));
                          ("y", VNum (Math_floor (vy p)));
                          ("z", VNum (Math_floor (vz p)))] /\
                  integral_position (assoc "position" d) = finite_position p)) /\
  (forall q, exists k, Math_floor (JSFinite q) = JSFinite (inject_Z k) /\
                       (inject_Z k <= q)%Q /\ (q < inject_Z (k + 1))%Q) /\
  (Math_floor JSNaN = JSNaN /\
   forall negative, Math_floor (JSInfinity negative) = JSInfinity negative) /\
  (exists e, handle digits bot SigHealth st = (st, [e]) /\
             data e = Some [("health", VNum (health bot));
                            ("maxHealth", VNum (max_health bot))]) /\
  (exists e, handle digits bot SigHurt st = (st, [e]) /\
             data e = Some [("health", VNum (health bot));
                            ("maxHealth", VNum (max_health bot))]) /\
  (forall victim,
     exists e d, handle digits bot (SigEntityHurt victim) st = (st, [e]) /\
                 data e = Some d /\
                 assoc "health" d = optional VNum (entity_health victim)).
Proof.
  split; [| split; [apply Math_floor_finite | split; [done |]];
            split; [by eexists | split; [by eexists | intros; by do 2 eexists]]].
  intros signal e Hreads Hin.
  assert (Hgoal : forall d,
    data e = Some d ->
    assoc "position" d = optional floored (source_position bot signal) ->
    exists d, data e = Some d /\
              (source_position bot signal = None ->
               assoc "position" d = VUndefined) /\
              (forall p, source_position bot signal = Some p ->
                 assoc "position" d
                 = VObj [("x", VNum (Math_floor (vx p)));
                         ("y", VNum (Math_floor (vy p)));
                         ("z", VNum (Math_floor (vz p)))] /\
                 integral_position (assoc "position" d) = finite_position p)).
  { intros d Hd Hp. exists d. split; [done |]. rewrite Hp. split.
    - by intros ->.
    - intros p ->. split; [done |]. apply floored_integral. }
  destruct signal; try discriminate Hreads; simpl in Hin.
  - unfold on_spawn in Hin. destruct (spawn_pending st); simpl in Hin;
      [| by apply elem_of_nil in Hin].
    apply list_elem_of_singleton in Hin as ->. by eapply Hgoal.
  - apply list_elem_of_singleton in Hin as ->. by eapply Hgoal.
  - apply list_elem_of_singleton in Hin as ->. by eapply Hgoal.
  - apply list_elem_of_singleton in Hin as ->. by eapply Hgoal.
  - apply list_elem_of_singleton in Hin as ->. by eapply Hgoal.
  - apply list_elem_of_singleton in Hin as ->. by eapply Hgoal.
  - apply list_elem_of_singleton in Hin as ->. by eapply Hgoal.
  - unfold on_move in Hin.
    destruct (move_now bot - lastMoveTime st <? 500); simpl in Hin;
      [by apply elem_of_nil in Hin |].
    destruct (bot_position bot) as [p |] eqn:Hp; simpl in Hin;
      [| by apply elem_of_nil in Hin].
    apply list_elem_of_singleton in Hin as ->.
    eapply Hgoal; [reflexivity |]. simpl. by rewrite Hp.
  - apply list_elem_of_singleton in Hin as ->. by eapply Hgoal.
Qed.

(** C10. The spawn signal has a once-only handler.  After any signals
    without a spawn, the first spawn gives one event of kind spawn and
    severity success; after any signals with a spawn, a spawn gives no
    event.  Login, end and kicked give one event at every occurrence, of
    severity info, warning and error. *)
Theorem spawn_is_handled_once (signals : list (Bot * Signal)) (bot : Bot) :
  (existsb is_signal_spawn signals = false ->
   exists st' e,
     handle digits bot SigSpawn (settle digits signals registered) = (st', [e]) /\
     type e = "spawn" /\ severity e = SUCCESS /\ timestamp e = now bot /\
     run digits (signals ++ [(bot, SigSpawn)]) registered
     = run digits signals registered ++ [[e]]) /\
  (existsb is_signal_spawn signals = true ->
   handle digits bot SigSpawn (settle digits signals registered)
   = (settle digits signals registered, []) /\
   run digits (signals ++ [(bot, SigSpawn)]) registered
   = run digits signals registered ++ [[]]) /\
  (exists e, handle digits bot SigLogin (settle digits signals registered)
             = (settle digits signals registered, [e]) /\
             type e = "login" /\ severity e = INFO) /\
  (forall reason,
     exists e, handle digits bot (SigEnd reason) (settle digits signals registered)
               = (settle digits signals registered, [e]) /\
               type e = "end" /\ severity e = WARNING) /\
  (forall reason,
     exists e, handle digits bot (SigKicked reason) (settle digits signals registered)
               = (settle digits signals registered, [e]) /\
               type e = "kicked" /\ severity e = ERROR).
Proof.
  pose proof (settle_spawn_pending signals registered) as Hflag.
  split; [| split; [| split; [| split]]].
  - intros Hnone. rewrite Hnone in Hflag. simpl in Hflag.
    do 2 eexists. simpl handle. unfold on_spawn. rewrite Hflag.
    split; [reflexivity |]. repeat split.
    rewrite run_app. simpl. unfold on_spawn. by rewrite Hflag.
  - intros Hsome. rewrite Hsome in Hflag.
    simpl handle. unfold on_spawn. rewrite Hflag. split; [done |].
    rewrite run_app. simpl. unfold on_spawn. by rewrite Hflag.
  - by eexists.
  - intros reason. by eexists.
  - intros reason. by eexists.
Qed.

End RegistryFacts.

(** C10 on a concrete run: login, spawn, login, spawn; the second spawn
    gives nothing. *)
Lemma spawn_is_handled_once_witness :
  (exists st' e,
     handle no_digits (bot_at 2000 origin) SigSpawn
       (settle no_digits [(bot_at 1000 origin, SigLogin)] registered) = (st', [e]) /\
     type e = "spawn" /\ severity e = SUCCESS /\ timestamp e = 2000 /\
     run no_digits ([(bot_at 1000 origin, SigLogin)] ++ [(bot_at 2000 origin, SigSpawn)])
       registered
     = run no_digits [(bot_at 1000 origin, SigLogin)] registered ++ [[e]]) /\
  (handle no_digits (bot_at 4000 origin) SigSpawn
     (settle no_digits [(bot_at 1000 origin, SigLogin); (bot_at 2000 origin, SigSpawn);
                        (bot_at 3000 origin, SigLogin)] registered)
   = (settle no_digits [(bot_at 1000 origin, SigLogin); (bot_at 2000 origin, SigSpawn);
                        (bot_at 3000 origin, SigLogin)] registered, []) /\
   run no_digits ([(bot_at 1000 origin, SigLogin); (bot_at 2000 origin, SigSpawn);
                   (bot_at 3000 origin, SigLogin)] ++ [(bot_at 4000 origin, SigSpawn)])
     registered
   = run no_digits [(bot_at 1000 origin, SigLogin); (bot_at 2000 origin, SigSpawn);
                    (bot_at 3000 origin, SigLogin)] registered ++ [[]]).
Proof.
  split.
  - apply (proj1 (spawn_is_handled_once no_digits
                    [(bot_at 1000 origin, SigLogin)] (bot_at 2000 origin))).
    reflexivity.
  - apply (proj1 (proj2 (spawn_is_handled_once no_digits
                           [(bot_at 1000 origin, SigLogin); (bot_at 2000 origin, SigSpawn);
                            (bot_at 3000 origin, SigLogin)] (bot_at 4000 origin)))).
    reflexivity.
Defined.

(** C7, as the spec has it, fails.  A move signal that finds the bot
    without a position gives no event but restarts the window: the next
    signal, 100 ms later and with a position, is dropped although no move
    event was ever given.  And with the clock reading 0, 100, 200 and 600
    the signal at 0 is dropped as well (the stored time starts at 0), so
    one event is given, not two. *)
Lemma move_window_counterexample :
  run no_digits [(bot_without_entity 1000, SigMove); (bot_at 1100 origin, SigMove)]
    registered = [[]; []] /\
  run no_digits (four_moves 0 origin origin origin origin) registered
  = [[]; []; []; [move_event 600 origin]].
Proof. split; reflexivity. Qed.

(** The window is measured between the readings of the handler, not
    between the stamps: a signal read at 999 and stamped at 1000 and a
    signal read and stamped at 1499 both give an event, stamped 499 ms
    apart. *)
Lemma move_stamps_499_apart :
  run no_digits [(bot_read_at 999 1000 origin, SigMove);
                 (bot_read_at 1499 1499 origin, SigMove)] registered
  = [[move_event 1000 origin]; [move_event 1499 origin]].
Proof. reflexivity. Qed.

(** C7, amended, with the clock at 1000. *)
Lemma move_events_are_rate_limited_witness :
  spaced (500 - 0)
    (move_times (run no_digits (four_moves 1000 origin halfway halfway origin)
                   registered)) /\
  lastMoveTime (settle no_digits (four_moves 1000 origin halfway halfway origin) registered)
  = List.last
      (move_reads no_digits (four_moves 1000 origin halfway halfway origin) registered) 0 /\
  run no_digits (four_moves 1000 origin halfway halfway origin) registered
  = [[move_event 1000 origin]; []; []; [move_event (1000 + 600) origin]] /\
  on_move (bot_at 1100 origin)
    (settle no_digits [(bot_without_entity 1000, SigMove)] registered)
  = (settle no_digits [(bot_without_entity 1000, SigMove)] registered, []) /\
  lastMoveTime (fst (on_move (bot_without_entity 1000) registered)) = 1000.
Proof.
  pose proof (move_events_are_rate_limited no_digits
                (four_moves 1000 origin halfway halfway origin)
                (bot_at 1000 origin) registered)
    as (_ & _ & _ & _ & _ & Hstamps & Hlast & Hfour).
  assert (Hin : forall (P : Bot -> Prop),
    (forall p, P (bot_at 1000 p)) -> (forall p, P (bot_at (1000 + 100) p)) ->
    (forall p, P (bot_at (1000 + 200) p)) -> (forall p, P (bot_at (1000 + 600) p)) ->
    forall b, (b, SigMove) ∈ four_moves 1000 origin halfway halfway origin -> P b).
  { intros P H0 H1 H2 H3 b Hb. unfold four_moves in Hb.
    repeat (apply elem_of_cons in Hb as [[= ->] | Hb]; [done |]).
    by apply elem_of_nil in Hb. }
  split; [| split; [| split; [| split]]].
  - apply Hstamps. apply Hin; intros p; simpl; lia.
  - apply Hlast. apply Hin; intros p; by eexists.
  - apply Hfour. lia.
  - apply (proj1 (move_events_are_rate_limited no_digits [] (bot_at 1100 origin)
                    (settle no_digits [(bot_without_entity 1000, SigMove)] registered))).
    simpl. lia.
  - apply (proj1 (proj2 (move_events_are_rate_limited no_digits []
                           (bot_without_entity 1000) registered))).
    simpl. lia.
Defined.

(** C9, as the spec has it, fails: the entity_hurt event of a zombie at
    (1.5, 64.5, -0.5) with a health of 7.5 carries the position
    (1, 64, -1) and the health 7.5. *)
Lemma entity_hurt_health_is_not_rounded :
  exists e d,
    handle no_digits (bot_at 1000 origin) (SigEntityHurt hurt_zombie) registered
    = (registered, [e]) /\
    data e = Some d /\
    assoc "position" d = VObj [("x", VNum 1); ("y", VNum 64); ("z", VNum (-1))] /\
    assoc "health" d = VNum (15 # 2) /\
    integral_payload e = false.
Proof. do 2 eexists. repeat split. Qed.

(** The health events carry no position; their health is not rounded
    either: a health of 19.5 reaches the payload as 19.5. *)
Lemma health_is_not_rounded :
  exists e,
    handle no_digits wounded_bot SigHealth registered = (registered, [e]) /\
    data e = Some [("health", VNum (39 # 2)); ("maxHealth", VNum 20)] /\
    integral_payload e = false.
Proof. eexists. repeat split. Qed.

(** [Math.floor] leaves what is not finite as it is: the x and z of the
    payload are then no integers. *)
Lemma floored_nowhere :
  floored nowhere = VObj [("x", VNum JSNaN); ("y", VNum 64);
                          ("z", VNum (JSInfinity true))] /\
  integral_position (floored nowhere) = false.
Proof. split; reflexivity. Qed.

(** C9, amended, for a death at (1.5, 64.5, -0.5): the payload has
    (1, 64, -1). *)
Lemma entity_positions_are_floored_witness :
  exists d,
    data (make_event 1000 "death" ERROR "机器人死亡"
            (Some [("position", floored halfway)])) = Some d /\
    (source_position (bot_at 1000 halfway) SigDeath = None ->
     assoc "position" d = VUndefined) /\
    (forall p, source_position (bot_at 1000 halfway) SigDeath = Some p ->
       assoc "position" d
       = VObj [("x", VNum (Math_floor (vx p))); ("y", VNum (Math_floor (vy p)));
               ("z", VNum (Math_floor (vz p)))] /\
       integral_position (assoc "position" d) = finite_position p).
Proof.
  apply (proj1 (entity_positions_are_floored no_digits (bot_at 1000 halfway) registered)
           SigDeath).
  - reflexivity.
  - simpl. apply list_elem_of_here.
Defined.

Example floored_halfway :
  floored halfway = VObj [("x", VNum 1); ("y", VNum 64); ("z", VNum (-1))].
Proof. reflexivity. Qed.

(** The end-to-end scenario of the spec: a death of severity error, with
    "death" taken out of the importance set and no host attached, is
    still notified, and the message has the description and the
    coordinates. *)
Example death_is_notified_with_position (clock : Z -> string) (digits : Q -> string) :
  notify clock digits
    (make_event 0 "death" ERROR "bot died"
       (Some [("position", VObj [("x", VNum 1); ("y", VNum 2); ("z", VNum 3)])]))
    (removeImportantEventType "death" new_EventNotifier)
  = [Formatted
       (make_event 0 "death" ERROR "bot died"
          (Some [("position", VObj [("x", VNum 1); ("y", VNum 2); ("z", VNum 3)])]));
     Logged "info"
       ("[事件通知] " +:+
        (("❌ [" +:+ clock 0 +:+ "] bot died") +:+ newline +:+ "   详情: " +:+
         ("位置: (" +:+ digits 1%Q +:+ ", " +:+ digits 2%Q +:+ ", " +:+ digits 3%Q
            +:+ ")")))].
Proof. vm_compute. reflexivity. Qed.

(* ===================================================================== *)
(** * An accepted emission, step by step *)
(* ===================================================================== *)

(** A loop whose body is a known step on worlds and keeps the set it
    walks: the steps of the live entries, in order. *)
Lemma for_of_fold (r : SetRef) (s : JSSet) (body : nat -> M bool)
    (P : World -> Prop) (step : nat -> World -> World) :
  (forall w, P w -> deref r (hub w) = s) ->
  (forall x w, x ∈ set_live s -> P w ->
     body x w = Some (Normal true, step x w) /\ P (step x w)) ->
  forall fuel i w,
    P w -> (length s - i < fuel)%nat ->
    for_of fuel r i body w
      = Some (Normal true, fold_left (fun w x => step x w) (set_live (drop i s)) w) /\
    P (fold_left (fun w x => step x w) (set_live (drop i s)) w).
Proof.
  intros Hset Hbody fuel.
  induction fuel as [| fuel IH]; intros i w HP Hfuel; [lia |].
  simpl. rewrite (Hset w HP).
  destruct (s !! i) as [[x |] |] eqn:Hi.
  - rewrite (drop_S _ _ _ Hi), set_live_cons_some. simpl.
    assert (Hx : x ∈ set_live s).
    { apply (set_live_drop_elem s i). rewrite (drop_S _ _ _ Hi), set_live_cons_some.
      apply list_elem_of_here. }
    destruct (Hbody x w Hx HP) as [Hrun HP1].
    unfold mbind, M_bind. rewrite Hrun.
    apply lookup_lt_Some in Hi. apply IH; [done | lia].
  - rewrite (drop_S _ _ _ Hi), set_live_cons_none.
    apply lookup_lt_Some in Hi. apply IH; [done | lia].
  - apply lookup_ge_None in Hi. rewrite drop_ge by lia. by simpl.
Qed.

Lemma apply_ops_cons op ops m : apply_ops (op :: ops) m = apply_ops ops (apply_op op m).
Proof. reflexivity. Qed.

Lemma apply_op_spares_heap op m :
  touches_heap op = false -> heap (apply_op op m) = heap m /\
                             listeners (apply_op op m) = listeners m \/
                             touches_heap op = false /\ op = OpRemoveAllListeners.
Proof.
  intros Hop. destruct op as [k l | k l | | | | |]; simpl in *;
    try (left; by split); [| | by right].
  - apply negb_false_iff in Hop. left. unfold on. by rewrite Hop.
  - apply negb_false_iff in Hop. left. unfold off. by rewrite Hop.
Qed.

Lemma apply_op_heap op m : touches_heap op = false -> heap (apply_op op m) = heap m.
Proof.
  intros Hop. destruct (apply_op_spares_heap op m Hop) as [[? _] | [_ ->]]; done.
Qed.

Lemma apply_ops_heap ops m :
  forallb (fun op => negb (touches_heap op)) ops = true ->
  heap (apply_ops ops m) = heap m.
Proof.
  revert m. induction ops as [| op ops IH]; intros m Hq; [done |].
  simpl in Hq. apply andb_prop in Hq as [Hop Hops]. apply negb_true_iff in Hop.
  rewrite apply_ops_cons, (IH _ Hops). by apply apply_op_heap.
Qed.

Lemma apply_op_wildcards op m :
  touches_wildcards op = false -> globalListeners (apply_op op m) = globalListeners m.
Proof.
  intros Hop. destruct op as [k l | k l | | | | |]; simpl in *; try done.
  - unfold on. rewrite Hop. by repeat case_match.
  - unfold off. rewrite Hop. by case_match.
Qed.

Lemma apply_ops_wildcards ops m :
  forallb (fun op => negb (touches_wildcards op)) ops = true ->
  globalListeners (apply_ops ops m) = globalListeners m.
Proof.
  revert m. induction ops as [| op ops IH]; intros m Hq; [done |].
  simpl in Hq. apply andb_prop in Hq as [Hop Hops]. apply negb_true_iff in Hop.
  rewrite apply_ops_cons, (IH _ Hops). by apply apply_op_wildcards.
Qed.

Lemma fold_fanout_step react scope message event ls w :
  fold_left (fun w x => fanout_step react scope message event x w) ls w
  = {| hub := after_listeners react event ls (hub w);
       trace := trace w ++ flat_map (fanout_obs react scope message event) ls |}.
Proof.
  revert w. induction ls as [| l ls IH]; intros w.
  - simpl. rewrite app_nil_r. by destruct w.
  - simpl. rewrite IH. unfold after_listeners. simpl. by rewrite <- app_assoc.
Qed.

Section EmitRun.

Variable react : nat -> MinecraftEvent -> Reaction.
Variable accepts : nat -> MinecraftEvent -> bool.

(** A fan-out loop over a set on the heap whose members leave the heap
    alone (they may still change the wildcard set and the kind map). *)
Lemma kind_loop_run a event fuel w :
  (forall l, l ∈ set_live (default [] (heap (hub w) !! a)) ->
             spares_heap (react l event) = true) ->
  (length (default [] (heap (hub w) !! a)) < fuel)%nat ->
  for_of fuel (HeapSet a) 0 (fun listener =>
    try_catch (call_listener react KindSpecific listener event)
      (fun error =>
         tell (ConsoleError ("Error in event listener for " +:+ type event +:+ ":")
                 error));;
    ret true) w
  = Some (Normal true,
          fold_left (fun w x =>
                       fanout_step react KindSpecific
                         ("Error in event listener for " +:+ type event +:+ ":")
                         event x w)
            (set_live (default [] (heap (hub w) !! a))) w).
Proof.
  intros Hspare Hfuel.
  destruct (for_of_fold (HeapSet a) (default [] (heap (hub w) !! a))
              (fun listener =>
                 try_catch (call_listener react KindSpecific listener event)
                   (fun error =>
                      tell (ConsoleError
                              ("Error in event listener for " +:+ type event +:+ ":")
                              error));;
                 ret true)
              (fun w' => heap (hub w') = heap (hub w))
              (fanout_step react KindSpecific
                 ("Error in event listener for " +:+ type event +:+ ":") event))
    with (fuel := fuel) (i := 0%nat) (w := w) as [Hrun _].
  - intros w' Hw'. simpl. by rewrite Hw'.
  - intros l w' Hl Hw'. split; [apply guarded_call_run |].
    simpl. rewrite <- Hw'. apply apply_ops_heap. by apply Hspare.
  - done.
  - lia.
  - by rewrite drop_0 in Hrun.
Qed.

(** The fan-out loop over the wildcard set when its members leave it
    alone. *)
Lemma wildcard_loop_run event fuel w :
  (forall l, l ∈ set_live (globalListeners (hub w)) ->
             spares_wildcards (react l event) = true) ->
  (length (globalListeners (hub w)) < fuel)%nat ->
  for_of fuel GlobalSet 0 (fun listener =>
    try_catch (call_listener react Wildcard listener event)
      (fun error => tell (ConsoleError "Error in global event listener:" error));;
    ret true) w
  = Some (Normal true,
          fold_left (fun w x =>
                       fanout_step react Wildcard "Error in global event listener:"
                         event x w)
            (set_live (globalListeners (hub w))) w).
Proof.
  intros Hspare Hfuel.
  destruct (for_of_fold GlobalSet (globalListeners (hub w))
              (fun listener =>
                 try_catch (call_listener react Wildcard listener event)
                   (fun error =>
                      tell (ConsoleError "Error in global event listener:" error));;
                 ret true)
              (fun w' => globalListeners (hub w') = globalListeners (hub w))
              (fanout_step react Wildcard "Error in global event listener:" event))
    with (fuel := fuel) (i := 0%nat) (w := w) as [Hrun _].
  - intros w' Hw'. simpl. by rewrite Hw'.
  - intros l w' Hl Hw'. split; [apply guarded_call_run |].
    simpl. rewrite <- Hw'. apply apply_ops_wildcards. by apply Hspare.
  - done.
  - lia.
  - by rewrite drop_0 in Hrun.
Qed.

(** An accepted emission when the listeners of the kind leave the sets of
    the kinds alone and the wildcard listeners leave the wildcard set
    alone.  The listeners of the kind may change the wildcard set: the
    second loop walks it as they left it. *)
Lemma emit_run fuel event w :
  forallb (fun f => accepts f event) (set_live (filters (hub w))) = true ->
  (forall l, l ∈ kind_listeners (type event) (hub w) ->
             spares_heap (react l event) = true) ->
  (forall l, l ∈ set_live (globalListeners (hub_after_kind react event (hub w))) ->
             spares_wildcards (react l event) = true) ->
  (length (filters (hub w)) < fuel)%nat ->
  (kind_slots (type event) (hub w) < fuel)%nat ->
  (length (globalListeners (hub_after_kind react event (hub w))) < fuel)%nat ->
  emit react accepts fuel event w
  = Some (Normal tt,
          {| hub := after_listeners react event
                      (set_live (globalListeners (hub_after_kind react event (hub w))))
                      (hub_after_kind react event (hub w));
             trace := trace w
               ++ map (fun f => FilterRan f event) (set_live (filters (hub w)))
               ++ flat_map (fanout_obs react KindSpecific
                              ("Error in event listener for " +:+ type event +:+ ":")
                              event)
                    (kind_listeners (type event) (hub w))
               ++ flat_map (fanout_obs react Wildcard "Error in global event listener:"
                              event)
                    (set_live (globalListeners (hub_after_kind react event (hub w)))) |}).
Proof.
  intros Hpass Hkind Hglobal Hf1 Hf2 Hf3.
  unfold emit.
  erewrite bind_run by (apply filter_loop_run; exact Hf1).
  rewrite Hpass, (visited_forallb_true _ _ Hpass).
  set (w1 := {| hub := hub w; trace := _ |}).
  erewrite bind_run by reflexivity.
  erewrite bind_run by reflexivity.
  set (w2 := update_hub (addToHistory event) w1).
  destruct (addToHistory_registry event (hub w)) as (Hl2 & Hh2 & Hg2).
  change (hub w2) with (addToHistory event (hub w)). rewrite Hl2.
  unfold hub_after_kind, kind_listeners, kind_slots in *.
  destruct (listeners (hub w) !! type event) as [a |] eqn:Ha.
  - assert (Hh : heap (hub w2) = heap (hub w)) by exact Hh2.
    erewrite (bind_run (_ ;; ret tt)); cycle 1.
    { erewrite bind_run; [reflexivity |].
      apply kind_loop_run; rewrite Hh; [exact Hkind | exact Hf2]. }
    rewrite Hh, fold_fanout_step.
    erewrite bind_run; cycle 1.
    { apply wildcard_loop_run; simpl; [exact Hglobal | exact Hf3]. }
    rewrite fold_fanout_step. simpl. unfold ret. do 3 f_equal.
    by rewrite <- !app_assoc.
  - erewrite (bind_run (ret tt)) by reflexivity.
    simpl in Hglobal, Hf3.
    erewrite bind_run; cycle 1.
    { apply wildcard_loop_run; simpl; [exact Hglobal | exact Hf3]. }
    rewrite fold_fanout_step. simpl. unfold ret. do 3 f_equal.
    by rewrite <- !app_assoc.
Qed.

End EmitRun.

(* ===================================================================== *)
(** * Subscribing and unsubscribing *)
(* ===================================================================== *)

Lemma set_has_snoc x (s : JSSet) : set_has x (s ++ [Some x]) = true.
Proof.
  apply set_has_live. rewrite set_live_app. apply elem_of_app. right.
  apply list_elem_of_here.
Qed.

Lemma set_add_idem x (s : JSSet) : set_add x (set_add x s) = set_add x s.
Proof.
  destruct (set_has x s) eqn:Hx.
  - assert (set_add x s = s) as -> by (unfold set_add; by rewrite Hx).
    unfold set_add. by rewrite Hx.
  - assert (set_add x s = s ++ [Some x]) as -> by (unfold set_add; by rewrite Hx).
    unfold set_add. by rewrite set_has_snoc.
Qed.

Lemma set_delete_absent x (s : JSSet) : x ∉ set_live s -> set_delete x s = s.
Proof.
  induction s as [| [y |] s IH]; intros Hx; [done | |].
  - rewrite set_live_cons_some in Hx. apply not_elem_of_cons in Hx as [Hne Hx].
    change (set_delete x (Some y :: s))
      with ((if Nat.eqb x y then None else Some y) :: set_delete x s).
    destruct (Nat.eqb_spec x y); [done |]. by rewrite IH.
  - change (set_delete x (None :: s)) with (None :: set_delete x s).
    by rewrite IH.
Qed.

Lemma alter_fixed {A} (f : A -> A) (l : list A) i :
  (forall x, l !! i = Some x -> f x = x) -> alter f i l = l.
Proof.
  intros Hf. rewrite (list_alter_ext f (fun x => x) l l i Hf eq_refl).
  by apply list_alter_id.
Qed.

Lemma alter_twice {A} (f : A -> A) (l : list A) i :
  (forall x, f (f x) = f x) -> alter f i (alter f i l) = alter f i l.
Proof.
  intros Hf. rewrite list_alter_alter_eq. apply list_alter_ext; [| done].
  intros x _. apply Hf.
Qed.

Lemma on_wildcard l m : on "*" l m = with_globalListeners (set_add l) m.
Proof. reflexivity. Qed.

Lemma on_known key l m a :
  String.eqb key "*" = false -> listeners m !! key = Some a ->
  on key l m = with_heap (alter (set_add l) a) m.
Proof. intros Hkey Ha. unfold on. rewrite Hkey, Ha. by rewrite Ha. Qed.

Lemma on_fresh key l m :
  String.eqb key "*" = false -> listeners m !! key = None ->
  on key l m
  = with_heap (alter (set_add l) (length (heap m)))
      (with_listeners (insert key (length (heap m)))
         (with_heap (fun h => h ++ [[]]) m)).
Proof.
  intros Hkey Ha. unfold on. rewrite Hkey, Ha.
  change (listeners (with_listeners (insert key (length (heap m)))
                       (with_heap (fun h => h ++ [[]]) m)))
    with (<[key := length (heap m)]> (listeners m)).
  by rewrite lookup_insert_eq.
Qed.

Lemma off_known key l m a :
  String.eqb key "*" = false -> listeners m !! key = Some a ->
  off key l m = with_heap (alter (set_delete l) a) m.
Proof. intros Hkey Ha. unfold off. by rewrite Hkey, Ha. Qed.

Lemma off_unknown key l m :
  String.eqb key "*" = false -> listeners m !! key = None -> off key l m = m.
Proof. intros Hkey Ha. unfold off. by rewrite Hkey, Ha. Qed.

(** Subscribing a listener twice under the same key is subscribing it
    once: the second [on] leaves the hub as the first made it. *)
Theorem on_is_idempotent (key : string) (l : nat) (m : EventManager) :
  on key l (on key l m) = on key l m.
Proof.
  destruct (String.eqb key "*") eqn:Hkey.
  - apply String.eqb_eq in Hkey as ->. rewrite !on_wildcard.
    unfold with_globalListeners. simpl. by rewrite set_add_idem.
  - destruct (listeners m !! key) as [a |] eqn:Ha.
    + rewrite (on_known key l m a Hkey Ha).
      rewrite (on_known key l (with_heap (alter (set_add l) a) m) a Hkey Ha).
      unfold with_heap. simpl. by rewrite (alter_twice _ _ _ (set_add_idem l)).
    + rewrite (on_fresh key l m Hkey Ha).
      rewrite (on_known key l _ (length (heap m)) Hkey (lookup_insert_eq _ _ _)).
      unfold with_heap, with_listeners. simpl.
      by rewrite (alter_twice _ _ _ (set_add_idem l)).
Qed.

(** Unsubscribing a listener that is not subscribed under the key, or
    under a kind nobody ever subscribed to, changes nothing and raises
    nothing. *)
Theorem off_of_stranger_is_noop (key : string) (l : nat) (m : EventManager) :
  l ∉ subscribers key m -> off key l m = m.
Proof.
  unfold subscribers, off, kind_listeners.
  destruct (String.eqb key "*"); intros Hl.
  - unfold with_globalListeners. rewrite (set_delete_absent _ _ Hl). by destruct m.
  - destruct (listeners m !! key) as [a |]; [| done].
    unfold with_heap. rewrite alter_fixed; [by destruct m |].
    intros s Hs. unfold JSSet in *. rewrite Hs in Hl. by apply set_delete_absent.
Qed.

Lemma off_of_stranger_is_noop_witness :
  off "chat" 9%nat chat_hub = chat_hub /\ off "death" 1%nat chat_hub = chat_hub.
Proof.
  split.
  - apply off_of_stranger_is_noop. vm_compute.
    intros Hin. apply list_elem_of_In in Hin. simpl in Hin. intuition discriminate.
  - apply off_of_stranger_is_noop. vm_compute. apply not_elem_of_nil.
Defined.

Lemma well_formed_new : well_formed new_EventManager.
Proof.
  unfold well_formed. simpl. split; [apply lookup_empty |].
  split; intros *; by rewrite lookup_empty.
Qed.

Lemma well_formed_on key l m : well_formed m -> well_formed (on key l m).
Proof.
  intros (Hstar & Hrange & Hinj).
  destruct (String.eqb key "*") eqn:Hkey.
  - apply String.eqb_eq in Hkey as ->. by rewrite on_wildcard.
  - assert (Hne : key <> "*") by (by apply String.eqb_neq).
    destruct (listeners m !! key) as [a |] eqn:Ha.
    + rewrite (on_known key l m a Hkey Ha).
      split; [exact Hstar |]. split; [| exact Hinj].
      intros k b Hb. simpl. rewrite length_alter. by apply (Hrange k).
    + rewrite (on_fresh key l m Hkey Ha).
      unfold well_formed, with_heap, with_listeners. simpl.
      rewrite length_alter, length_app. simpl.
      split; [by rewrite lookup_insert_ne |]. split.
      * intros k b. rewrite lookup_insert. case_decide.
        -- intros [= <-]. lia.
        -- intros Hb. specialize (Hrange k b Hb). lia.
      * intros k k' b. rewrite !lookup_insert.
        repeat case_decide; subst; try done.
        -- intros [= <-] Hb. specialize (Hrange k' _ Hb). lia.
        -- intros Hb [= <-]. specialize (Hrange k _ Hb). lia.
        -- apply Hinj.
Qed.

Lemma well_formed_off key l m : well_formed m -> well_formed (off key l m).
Proof.
  intros (Hstar & Hrange & Hinj). unfold off.
  destruct (String.eqb key "*"); [done |].
  destruct (listeners m !! key) as [a |]; [| done].
  split; [exact Hstar |]. split; [| exact Hinj].
  intros k b Hb. simpl. rewrite length_alter. by apply (Hrange k).
Qed.

Lemma well_formed_apply_op op m : well_formed m -> well_formed (apply_op op m).
Proof.
  intros Hwf. destruct op as [k l | k l | | | | |]; simpl; try exact Hwf.
  - by apply well_formed_on.
  - by apply well_formed_off.
  - unfold well_formed. simpl. split; [apply lookup_empty |].
    split; intros *; by rewrite lookup_empty.
Qed.

Lemma reachable_well_formed m : reachable m -> well_formed m.
Proof.
  induction 1 as [| op m _ IH | event m _ IH].
  - apply well_formed_new.
  - by apply well_formed_apply_op.
  - destruct (addToHistory_registry event m) as (Hl & Hh & _).
    unfold well_formed. by rewrite Hl, Hh.
Qed.

(** Every set on the heap, reachable from the kind map or not, holds a
    listener at most once. *)
Lemma reachable_heap_nodup m :
  reachable m -> forall a (s : JSSet), heap m !! a = Some s -> NoDup (set_live s).
Proof.
  induction 1 as [| op m _ IH | event m _ IH]; intros a s.
  - simpl. by rewrite lookup_nil.
  - assert (Halter : forall f b,
      (forall t, NoDup (set_live t) -> NoDup (set_live (f t))) ->
      forall h : list JSSet,
        (forall a s, h !! a = Some s -> NoDup (set_live s)) ->
        alter f b h !! a = Some s -> NoDup (set_live s)).
    { intros f b Hf h Hh. unfold JSSet in *. rewrite list_lookup_alter.
      case_decide; [| apply Hh].
      subst. destruct (h !! a) as [t |] eqn:Ht; simpl; [| done].
      intros [= <-]. apply Hf. by apply (Hh a). }
    destruct op as [k l | k l | | | | |]; simpl; try apply IH.
    + destruct (String.eqb k "*") eqn:Hkey.
      * apply String.eqb_eq in Hkey as ->. rewrite on_wildcard. apply IH.
      * destruct (listeners m !! k) as [b |] eqn:Hb.
        -- rewrite (on_known k l m b Hkey Hb). simpl.
           apply Halter; [apply set_add_nodup | apply IH].
        -- rewrite (on_fresh k l m Hkey Hb). simpl.
           apply Halter; [apply set_add_nodup |].
           intros a' s'. unfold JSSet in *. intros Hs'.
           apply lookup_app_Some in Hs' as [Hs' | [_ Hs']]; [by apply (IH a') |].
           apply list_lookup_singleton_Some in Hs' as [_ <-]. apply NoDup_nil_2.
    + unfold off. destruct (String.eqb k "*"); [apply IH |].
      destruct (listeners m !! k) as [b |]; [| apply IH]. simpl.
      apply Halter; [apply set_delete_nodup | apply IH].
  - destruct (addToHistory_registry event m) as (_ & -> & _). apply IH.
Qed.

Lemma subscribers_wildcard m : subscribers "*" m = set_live (globalListeners m).
Proof. reflexivity. Qed.

Lemma subscribers_kind key m :
  String.eqb key "*" = false -> subscribers key m = kind_listeners key m.
Proof. intros Hkey. unfold subscribers. by rewrite Hkey. Qed.

(** The registry of a hub built by the public operations is in good
    order: the wildcard key is never a key of the kind map (an event
    whose type is "*" has no listeners of its kind), every kind has a
    set of its own, and no listener is subscribed twice under a key. *)
Theorem registry_stays_in_good_order (m : EventManager) :
  reachable m ->
  well_formed m /\
  kind_listeners "*" m = [] /\
  (forall key, NoDup (subscribers key m)).
Proof.
  intros Hreach. pose proof (reachable_well_formed m Hreach) as Hwf.
  split; [exact Hwf |]. split.
  - unfold kind_listeners. by rewrite (proj1 Hwf).
  - intros key. unfold subscribers.
    destruct (String.eqb key "*"); [by apply reachable_wildcards_nodup |].
    unfold kind_listeners. destruct (listeners m !! key) as [a |]; [| apply NoDup_nil_2].
    destruct (heap m !! a) as [s |] eqn:Hs; simpl; [| apply NoDup_nil_2].
    by apply (reachable_heap_nodup m Hreach a).
Qed.

Lemma registry_stays_in_good_order_witness :
  well_formed chat_hub /\ kind_listeners "*" chat_hub = [] /\
  (forall key, NoDup (subscribers key chat_hub)).
Proof. apply registry_stays_in_good_order, reachable_chat_hub. Defined.

Lemma kind_listeners_alter f key a b m :
  listeners m !! key = Some a ->
  kind_listeners key (with_heap (alter f b) m)
  = if decide (b = a) then set_live (default [] (f <$> heap m !! a))
    else kind_listeners key m.
Proof.
  intros Ha. unfold kind_listeners, with_heap. simpl. rewrite Ha.
  unfold JSSet in *. rewrite list_lookup_alter. by case_decide; subst.
Qed.

(** [on] adds the listener at the end of the subscribers of its key when
    it is not yet among them, and leaves every other key alone. *)
Theorem on_subscribes (key : string) (l : nat) (m : EventManager) :
  reachable m ->
  subscribers key (on key l m)
  = (if decide (l ∈ subscribers key m) then subscribers key m
     else subscribers key m ++ [l]) /\
  (forall other, other <> key -> subscribers other (on key l m) = subscribers other m).
Proof.
  intros Hreach. pose proof (reachable_well_formed m Hreach) as (Hstar & Hrange & Hinj).
  destruct (String.eqb key "*") eqn:Hkey.
  - apply String.eqb_eq in Hkey as ->. rewrite on_wildcard. split.
    + rewrite !subscribers_wildcard. simpl. rewrite set_add_live.
      destruct (set_has l (globalListeners m)) eqn:Hl.
      * apply set_has_live in Hl. by rewrite decide_True.
      * rewrite decide_False; [done |]. rewrite <- set_has_live. congruence.
    + intros other Hother. apply String.eqb_neq in Hother.
      by rewrite !(subscribers_kind other) by done.
  - rewrite !(subscribers_kind key) by done.
    destruct (listeners m !! key) as [a |] eqn:Ha.
    + rewrite (on_known key l m a Hkey Ha). split.
      * rewrite (kind_listeners_alter _ key a a m Ha), decide_True by done.
        unfold kind_listeners. rewrite Ha.
        destruct (heap m !! a) as [s |] eqn:Hs;
          [| apply lookup_ge_None in Hs; specialize (Hrange key a Ha);
             unfold JSSet in *; lia].
        simpl. rewrite set_add_live.
        destruct (set_has l s) eqn:Hl.
        -- apply set_has_live in Hl. by rewrite decide_True.
        -- rewrite decide_False; [done |]. rewrite <- set_has_live. congruence.
      * intros other Hother. unfold subscribers.
        destruct (String.eqb other "*"); [done |].
        destruct (listeners m !! other) as [b |] eqn:Hb.
        -- rewrite (kind_listeners_alter _ other b a m Hb), decide_False; [done |].
           intros ->. apply Hother. by apply (Hinj other key b).
        -- unfold kind_listeners. simpl. by rewrite Hb.
    + rewrite (on_fresh key l m Hkey Ha). split.
      * rewrite decide_False by (unfold kind_listeners; rewrite Ha; apply not_elem_of_nil).
        unfold kind_listeners at 2. rewrite Ha.
        unfold kind_listeners, with_heap, with_listeners. simpl.
        rewrite lookup_insert_eq. unfold JSSet in *.
        rewrite list_lookup_alter_eq, lookup_app_r by lia.
        by rewrite Nat.sub_diag.
      * intros other Hother. unfold subscribers.
        destruct (String.eqb other "*"); [done |].
        unfold kind_listeners, with_heap, with_listeners. simpl.
        rewrite lookup_insert_ne by done.
        destruct (listeners m !! other) as [b |] eqn:Hb; [| done].
        specialize (Hrange other b Hb). unfold JSSet in *.
        rewrite list_lookup_alter_ne, lookup_app_l by lia. done.
Qed.

(** [off] takes the listener out of the subscribers of its key, keeps the
    order of the others, and leaves every other key alone. *)
Theorem off_unsubscribes (key : string) (l : nat) (m : EventManager) :
  reachable m ->
  subscribers key (off key l m)
  = List.filter (fun x => negb (Nat.eqb l x)) (subscribers key m) /\
  (l ∉ subscribers key (off key l m)) /\
  (forall other, other <> key -> subscribers other (off key l m) = subscribers other m).
Proof.
  intros Hreach. pose proof (reachable_well_formed m Hreach) as (Hstar & Hrange & Hinj).
  assert (Hmain :
    subscribers key (off key l m)
    = List.filter (fun x => negb (Nat.eqb l x)) (subscribers key m) /\
    (forall other, other <> key ->
                   subscribers other (off key l m) = subscribers other m)).
  { destruct (String.eqb key "*") eqn:Hkey.
    - apply String.eqb_eq in Hkey as ->. split.
      + rewrite !subscribers_wildcard. simpl. apply set_delete_live.
      + intros other Hother. apply String.eqb_neq in Hother.
        by rewrite !(subscribers_kind other) by done.
    - rewrite !(subscribers_kind key) by done.
      destruct (listeners m !! key) as [a |] eqn:Ha.
      + rewrite (off_known key l m a Hkey Ha). split.
        * rewrite (kind_listeners_alter _ key a a m Ha), decide_True by done.
          unfold kind_listeners. rewrite Ha.
          destruct (heap m !! a) as [s |]; simpl; [apply set_delete_live | done].
        * intros other Hother. unfold subscribers.
          destruct (String.eqb other "*"); [done |].
          destruct (listeners m !! other) as [b |] eqn:Hb.
          -- rewrite (kind_listeners_alter _ other b a m Hb), decide_False; [done |].
             intros ->. apply Hother. by apply (Hinj other key b).
          -- unfold kind_listeners. simpl. by rewrite Hb.
      + rewrite (off_unknown key l m Hkey Ha). split; [| done].
        unfold kind_listeners. by rewrite Ha. }
  destruct Hmain as [Hkey Hother]. split; [exact Hkey |]. split; [| exact Hother].
  rewrite Hkey. intros Hin. apply list_elem_of_In, filter_In in Hin as [_ Hne].
  by rewrite Nat.eqb_refl in Hne.
Qed.

Lemma on_subscribes_witness :
  subscribers "chat" (on "chat" 4%nat chat_hub) = [1; 2; 4]%nat /\
  subscribers "chat" (on "chat" 2%nat chat_hub) = [1; 2]%nat /\
  subscribers "*" (on "chat" 4%nat chat_hub) = [3]%nat.
Proof.
  split; [| split].
  - apply (proj1 (on_subscribes "chat" 4%nat chat_hub reachable_chat_hub)).
  - apply (proj1 (on_subscribes "chat" 2%nat chat_hub reachable_chat_hub)).
  - by apply (proj2 (on_subscribes "chat" 4%nat chat_hub reachable_chat_hub) "*").
Defined.

Lemma off_unsubscribes_witness :
  subscribers "chat" (off "chat" 1%nat chat_hub) = [2]%nat /\
  (1%nat ∉ subscribers "chat" (off "chat" 1%nat chat_hub)) /\
  subscribers "*" (off "chat" 1%nat chat_hub) = [3]%nat.
Proof.
  split; [| split].
  - apply (proj1 (off_unsubscribes "chat" 1%nat chat_hub reachable_chat_hub)).
  - apply (proj1 (proj2 (off_unsubscribes "chat" 1%nat chat_hub reachable_chat_hub))).
  - by apply (proj2 (proj2 (off_unsubscribes "chat" 1%nat chat_hub reachable_chat_hub))
                "*").
Defined.

(* ===================================================================== *)
(** * Emissions and the operations around them *)
(* ===================================================================== *)

Lemma after_listeners_observers react event ls m :
  (forall l, ops (react l event) = []) -> after_listeners react event ls m = m.
Proof.
  intros Hobs. unfold after_listeners.
  induction ls as [| l ls IH]; [done |]. simpl. by rewrite Hobs.
Qed.

Lemma observers_spare (react : nat -> MinecraftEvent -> Reaction) event :
  (forall l, ops (react l event) = []) ->
  forall l, spares_heap (react l event) = true /\
            spares_wildcards (react l event) = true.
Proof. intros Hobs l. unfold spares_heap, spares_wildcards. by rewrite Hobs. Qed.

(** An accepted emission whose listeners only look: the hub afterwards is
    the hub with the event added to the history. *)
Lemma emit_observers react accepts fuel event m :
  forallb (fun f => accepts f event) (set_live (filters m)) = true ->
  (forall l, ops (react l event) = []) ->
  enough_fuel fuel event m ->
  emit react accepts fuel event (start m)
  = Some (Normal tt,
          {| hub := addToHistory event m;
             trace := map (fun f => FilterRan f event) (set_live (filters m))
               ++ flat_map (fanout_obs react KindSpecific
                              ("Error in event listener for " +:+ type event +:+ ":")
                              event)
                    (kind_listeners (type event) m)
               ++ flat_map (fanout_obs react Wildcard "Error in global event listener:"
                              event)
                    (set_live (globalListeners m)) |}).
Proof.
  intros Hpass Hobs (Hf1 & Hf2 & Hf3).
  assert (Hmid : hub_after_kind react event m = addToHistory event m)
    by (unfold hub_after_kind; by apply after_listeners_observers).
  assert (Hg : globalListeners (addToHistory event m) = globalListeners m)
    by apply addToHistory_registry.
  rewrite (emit_run react accepts fuel event (start m)); simpl;
    rewrite ?Hmid, ?Hg; try done.
  - by rewrite after_listeners_observers.
  - intros l _. by apply observers_spare.
  - intros l _. by apply observers_spare.
Qed.





(** At capacity the oldest entry goes out and the others keep their
    order, followed by the new one. *)
Theorem insertion_at_capacity_evicts_oldest (event : MinecraftEvent) (m : EventManager) :
  1 <= maxHistorySize m ->
  Z.of_nat (length (eventHistory m)) = maxHistorySize m ->
  eventHistory (addToHistory event m) = tail (eventHistory m) ++ [event] /\
  length (eventHistory (addToHistory event m)) = length (eventHistory m) /\
  maxHistorySize (addToHistory event m) = maxHistorySize m.
Proof.
  intros Hcap Hfull.
  rewrite addToHistory_full, addToHistory_capacity by lia.
  split; [| split; [apply length_tail_snoc | done]].
  destruct (eventHistory m); [simpl in *; lia | done].
Qed.

Lemma insertion_at_capacity_evicts_oldest_witness :
  eventHistory
    (addToHistory (sample 3)
       (record_all [sample 1; sample 2] (setMaxHistorySize 2 new_EventManager)))
  = tail (eventHistory
            (record_all [sample 1; sample 2] (setMaxHistorySize 2 new_EventManager)))
    ++ [sample 3] /\
  length (eventHistory
            (addToHistory (sample 3)
               (record_all [sample 1; sample 2] (setMaxHistorySize 2 new_EventManager))))
  = length (eventHistory
              (record_all [sample 1; sample 2] (setMaxHistorySize 2 new_EventManager))) /\
  maxHistorySize
    (addToHistory (sample 3)
       (record_all [sample 1; sample 2] (setMaxHistorySize 2 new_EventManager)))
  = maxHistorySize
      (record_all [sample 1; sample 2] (setMaxHistorySize 2 new_EventManager)).
Proof.
  apply insertion_at_capacity_evicts_oldest; [vm_compute; discriminate | reflexivity].
Defined.

Lemma set_clear_length (s : JSSet) : length (set_clear s) = length s.
Proof. unfold set_clear. apply length_map. Qed.

Lemma set_delete_length x (s : JSSet) : length (set_delete x s) = length s.
Proof. unfold set_delete. apply length_map. Qed.

(** After [removeAllListeners] nobody is subscribed under any key, and an
    accepted emission calls nobody; the filters are still asked and the
    event is still stored. *)
Theorem emission_after_removeAllListeners
    (react : nat -> MinecraftEvent -> Reaction)
    (accepts : nat -> MinecraftEvent -> bool)
    (fuel : nat) (event : MinecraftEvent) (m : EventManager) :
  forallb (fun f => accepts f event) (set_live (filters m)) = true ->
  (length (filters m) < fuel)%nat ->
  (length (globalListeners m) < fuel)%nat ->
  (forall key, subscribers key (removeAllListeners m) = []) /\
  emit react accepts fuel event (start (removeAllListeners m))
  = Some (Normal tt,
          {| hub := addToHistory event (removeAllListeners m);
             trace := map (fun f => FilterRan f event) (set_live (filters m)) |}).
Proof.
  intros Hpass Hf1 Hf3.
  assert (Hkind : forall key, kind_listeners key (removeAllListeners m) = [])
    by (intros key; unfold kind_listeners; simpl; by rewrite lookup_empty).
  assert (Hmid : hub_after_kind react event (removeAllListeners m)
                 = addToHistory event (removeAllListeners m))
    by (unfold hub_after_kind; by rewrite Hkind).
  assert (Hg : globalListeners (addToHistory event (removeAllListeners m))
               = set_clear (globalListeners m))
    by (by destruct (addToHistory_registry event (removeAllListeners m)) as (_ & _ & ->)).
  split.
  - intros key. unfold subscribers. destruct (String.eqb key "*"); [| apply Hkind].
    simpl. apply set_clear_live.
  - rewrite (emit_run react accepts fuel event (start (removeAllListeners m)));
      simpl; rewrite ?Hmid, ?Hg, ?Hkind, ?set_clear_live, ?set_clear_length; try done.
    + simpl. by rewrite app_nil_r.
    + intros l Hl. by apply elem_of_nil in Hl.
    + intros l Hl. by apply elem_of_nil in Hl.
    + unfold kind_slots. simpl. rewrite lookup_empty. lia.
Qed.

Lemma emission_after_removeAllListeners_witness :
  (forall key, subscribers key (removeAllListeners chat_hub) = []) /\
  emit thrower pass 4 (sample 1) (start (removeAllListeners chat_hub))
  = Some (Normal tt,
          {| hub := addToHistory (sample 1) (removeAllListeners chat_hub);
             trace := map (fun f => FilterRan f (sample 1))
                        (set_live (filters chat_hub)) |}).
Proof.
  apply (emission_after_removeAllListeners thrower pass 4 (sample 1) chat_hub);
    [reflexivity | vm_compute; lia | vm_compute; lia].
Defined.

Lemma filter_not_among l f :
  forall event event' ls react scope message,
    FilterRan f event'
    ∉ map (fun g => FilterRan g event) (List.filter (fun x => negb (Nat.eqb f x)) l)
      ++ flat_map (fanout_obs react scope message event) ls.
Proof.
  intros event event' ls react scope message Hin.
  apply elem_of_app in Hin as [Hin | Hin].
  - apply list_elem_of_In, in_map_iff in Hin as (g & [= <- _] & Hg).
    apply filter_In in Hg as [_ Hg]. by rewrite Nat.eqb_refl in Hg.
  - apply list_elem_of_In, in_flat_map in Hin as (x & _ & Hx).
    unfold fanout_obs in Hx. simpl in Hx.
    destruct Hx as [Hx | Hx]; [discriminate |].
    destruct (outcome (react x event)); simpl in Hx; [done |].
    by destruct Hx.
Qed.

(** After [removeFilter f] the filter is not asked any more, so an event
    that only [f] rejected is accepted. *)
Theorem removed_filter_is_not_asked
    (react : nat -> MinecraftEvent -> Reaction)
    (accepts : nat -> MinecraftEvent -> bool)
    (fuel : nat) (event : MinecraftEvent) (m : EventManager) (f : nat) :
  (forall g, g ∈ set_live (filters m) -> g <> f -> accepts g event = true) ->
  (forall l, ops (react l event) = []) ->
  enough_fuel fuel event m ->
  exists w',
    emit react accepts fuel event (start (removeFilter f m)) = Some (Normal tt, w') /\
    hub w' = addToHistory event (removeFilter f m) /\
    (forall event', FilterRan f event' ∉ trace w') /\
    filters_asked w' = List.filter (fun x => negb (Nat.eqb f x)) (set_live (filters m)).
Proof.
  intros Hothers Hobs (Hf1 & Hf2 & Hf3).
  assert (Hlive : set_live (filters (removeFilter f m))
                  = List.filter (fun x => negb (Nat.eqb f x)) (set_live (filters m)))
    by apply set_delete_live.
  assert (Hpass : forallb (fun g => accepts g event)
                    (set_live (filters (removeFilter f m))) = true).
  { rewrite Hlive. apply forallb_forall. intros g Hg.
    apply filter_In in Hg as [Hg Hne]. apply Hothers; [by apply list_elem_of_In |].
    intros ->. by rewrite Nat.eqb_refl in Hne. }
  eexists. split.
  - apply emit_observers; [exact Hpass | exact Hobs |].
    repeat split; simpl; rewrite ?set_delete_length; done.
  - simpl. split; [done |]. rewrite set_delete_live. split.
    + intros event' Hin. apply elem_of_app in Hin as [Hin | Hin].
      * apply (filter_not_among (set_live (filters m)) f event event' [] react
                 Wildcard "").
        simpl. rewrite app_nil_r. exact Hin.
      * apply elem_of_app in Hin as [Hin | Hin];
          eapply (filter_not_among []); exact Hin.
    + unfold filters_asked. simpl.
      rewrite !omap_app.
      assert (Hno : forall scope message ls,
        omap (fun o => match o with FilterRan g _ => Some g | _ => None end)
          (flat_map (fanout_obs react scope message event) ls) = []).
      { intros scope message ls. induction ls as [| l ls IH]; [done |].
        simpl. rewrite omap_app, IH. unfold fanout_obs.
        by destruct (outcome (react l event)). }
      rewrite !Hno, !app_nil_r.
      generalize (List.filter (fun x => negb (Nat.eqb f x)) (set_live (filters m))).
      intros l. induction l as [| g l IH]; [done |]. simpl. f_equal. exact IH.
Qed.

Lemma removed_filter_is_not_asked_witness :
  exists w',
    emit idle gate 4 (sample 1) (start (removeFilter 8%nat chat_hub_gated))
    = Some (Normal tt, w') /\
    hub w' = addToHistory (sample 1) (removeFilter 8%nat chat_hub_gated) /\
    (forall event', FilterRan 8 event' ∉ trace w') /\
    filters_asked w'
    = List.filter (fun x => negb (Nat.eqb 8 x)) (set_live (filters chat_hub_gated)).
Proof.
  apply (removed_filter_is_not_asked idle gate 4 (sample 1) chat_hub_gated 8%nat).
  - intros g _ Hg. unfold gate. by destruct (Nat.eqb_spec g 8).
  - reflexivity.
  - vm_compute. lia.
Defined.






(* ===================================================================== *)
(** * [emit] with its suspensions *)
(* ===================================================================== *)

Lemma for_of_ext r (body1 body2 : nat -> M bool) :
  (forall x w, body1 x w = body2 x w) ->
  forall fuel i w, for_of fuel r i body1 w = for_of fuel r i body2 w.
Proof.
  intros Hbody fuel. induction fuel as [| fuel IH]; intros i w; [done |].
  simpl. destruct (deref r (hub w) !! i) as [[x |] |]; [| apply IH | done].
  unfold mbind, M_bind. rewrite Hbody.
  destruct (body2 x w) as [[[[|] | e] w'] |]; first [apply IH | done].
Qed.

Lemma bind_ext {A B} (c1 c2 : M A) (k1 k2 : A -> M B) w :
  c1 w = c2 w -> (forall a w', k1 a w' = k2 a w') ->
  (x ← c1; k1 x) w = (x ← c2; k2 x) w.
Proof.
  intros Hc Hk. unfold mbind, M_bind. rewrite Hc.
  destruct (c2 w) as [[[a | e] w'] |]; first [apply Hk | done].
Qed.

Lemma registry_free_spares ops :
  registry_free ops = true ->
  forallb (fun op => negb (touches_heap op)) ops = true /\
  forallb (fun op => negb (touches_wildcards op)) ops = true.
Proof.
  unfold registry_free. induction ops as [| op ops IH]; [done |]. simpl.
  intros [Hop Hops]%andb_prop. destruct (IH Hops) as [-> ->].
  by destruct op.
Qed.

Lemma leaves_registry_spares (r : Reaction) :
  leaves_registry r = true -> spares_heap r = true /\ spares_wildcards r = true.
Proof. apply registry_free_spares. Qed.

(** The operations do to the subscriptions what they do whatever the
    rest of the hub is. *)
Lemma apply_op_same_registry op m m' :
  same_registry m m' -> same_registry (apply_op op m) (apply_op op m').
Proof.
  destruct m as [ls h g f hist cap], m' as [ls' h' g' f' hist' cap'].
  unfold same_registry. simpl. intros (<- & <- & <-).
  destruct op as [k l | k l | | | | |]; simpl; try done.
  - unfold on. simpl. destruct (String.eqb k "*"); simpl; [done |].
    destruct (ls !! k) as [a |] eqn:Hk; simpl; rewrite ?Hk, ?lookup_insert_eq; by simpl.
  - unfold off. simpl. destruct (String.eqb k "*"); simpl; [done |].
    by destruct (ls !! k).
Qed.

Lemma apply_ops_same_registry ops m m' :
  same_registry m m' -> same_registry (apply_ops ops m) (apply_ops ops m').
Proof.
  revert m m'. induction ops as [| op ops IH]; intros m m' Hreg; [done |].
  rewrite !apply_ops_cons. apply IH. by apply apply_op_same_registry.
Qed.

Lemma after_listeners_same_registry react event ls m m' :
  same_registry m m' ->
  same_registry (after_listeners react event ls m) (after_listeners react event ls m').
Proof.
  revert m m'. induction ls as [| l ls IH]; intros m m' Hreg; [done |].
  unfold after_listeners. simpl. apply IH. by apply apply_ops_same_registry.
Qed.

Lemma after_listeners_registry react event ls m :
  (forall l, l ∈ ls -> leaves_registry (react l event) = true) ->
  same_registry (after_listeners react event ls m) m.
Proof.
  revert m. induction ls as [| l ls IH]; intros m Hq; [apply same_registry_refl |].
  unfold after_listeners. simpl.
  eapply same_registry_trans.
  - apply IH. intros x Hx. apply Hq. by apply list_elem_of_further.
  - apply apply_ops_registry. apply Hq. apply list_elem_of_here.
Qed.





Section EmitAsyncFacts.

Variable react : nat -> MinecraftEvent -> Reaction.
Variable accepts : nat -> MinecraftEvent -> bool.
Variable meanwhile : World -> list HubOp.
Variable console_error : string -> Outcome.

(** The awaited call in the two fan-out loops, when the console prints
    what the listener throws: the loop body completes normally and goes
    on. *)
Lemma awaited_call_run scope message l event w :
  printable react console_error event l ->
  (try_catch (await_listener react meanwhile scope l event)
     (fun error => print_error console_error message error);;
   ret true) w
  = Some (Normal true, await_step react meanwhile scope message event l w).
Proof.
  intros Hprint. unfold printable in Hprint.
  unfold await_step, await_listener, suspend, print_error, try_catch, mbind, M_bind,
    tell, modify_hub, throw, ret, observe, update_hub.
  simpl. destruct (outcome (react l event)) as [| e] eqn:Ho; simpl.
  - by rewrite app_nil_r.
  - by rewrite (Hprint e eq_refl).
Qed.

(** When the console does not print it, the error of the console leaves
    the loop body. *)
Lemma awaited_call_escapes scope message l event w e e' :
  outcome (react l event) = Throws e ->
  console_error e = Throws e' ->
  exists w',
    (try_catch (await_listener react meanwhile scope l event)
       (fun error => print_error console_error message error);;
     ret true) w
    = Some (Abrupt e', w') /\
    trace w' = trace w ++ [ListenerRan scope l event].
Proof.
  intros Ho Hc.
  unfold await_listener, suspend, print_error, try_catch, mbind, M_bind,
    tell, modify_hub, throw, ret, observe, update_hub.
  simpl. rewrite Ho. simpl. rewrite Hc. by eexists.
Qed.

Hypothesis others_leave_registry : forall w, registry_free (meanwhile w) = true.

(** A sequence of awaited calls: the trace is that of the calls, and the
    subscriptions are what the listeners made of them. *)
Lemma fold_await_step scope message event ls w m0 :
  same_registry (hub w) m0 ->
  trace (fold_left (fun w x => await_step react meanwhile scope message event x w) ls w)
  = trace w ++ flat_map (fanout_obs react scope message event) ls /\
  same_registry
    (hub (fold_left (fun w x => await_step react meanwhile scope message event x w) ls w))
    (after_listeners react event ls m0).
Proof.
  revert w m0. induction ls as [| l ls IH]; intros w m0 Hreg.
  - simpl. by rewrite app_nil_r.
  - simpl fold_left.
    destruct (IH (await_step react meanwhile scope message event l w)
                (apply_ops (ops (react l event)) m0)) as [Htr Hhub].
    { simpl. eapply same_registry_trans.
      - apply apply_ops_registry. apply others_leave_registry.
      - by apply apply_ops_same_registry. }
    split; [| exact Hhub].
    rewrite Htr. simpl. unfold fanout_obs. by rewrite <- !app_assoc.
Qed.

Lemma await_step_heap scope message event l w :
  spares_heap (react l event) = true ->
  heap (hub (await_step react meanwhile scope message event l w)) = heap (hub w).
Proof.
  intros Hs. simpl. rewrite apply_ops_heap.
  - by apply apply_ops_heap.
  - apply registry_free_spares, others_leave_registry.
Qed.

Lemma await_step_wildcards scope message event l w :
  spares_wildcards (react l event) = true ->
  globalListeners (hub (await_step react meanwhile scope message event l w))
  = globalListeners (hub w).
Proof.
  intros Hs. simpl. rewrite apply_ops_wildcards.
  - by apply apply_ops_wildcards.
  - apply registry_free_spares, others_leave_registry.
Qed.

Lemma async_kind_loop_run a event fuel w :
  (forall l, printable react console_error event l) ->
  (forall l, l ∈ set_live (default [] (heap (hub w) !! a)) ->
             spares_heap (react l event) = true) ->
  (length (default [] (heap (hub w) !! a)) < fuel)%nat ->
  for_of fuel (HeapSet a) 0 (fun listener =>
    try_catch (await_listener react meanwhile KindSpecific listener event)
      (fun error =>
         print_error console_error
           ("Error in event listener for " +:+ type event +:+ ":") error);;
    ret true) w
  = Some (Normal true,
          fold_left (fun w x =>
                       await_step react meanwhile KindSpecific
                         ("Error in event listener for " +:+ type event +:+ ":")
                         event x w)
            (set_live (default [] (heap (hub w) !! a))) w).
Proof.
  intros console_prints Hspare Hfuel.
  destruct (for_of_fold (HeapSet a) (default [] (heap (hub w) !! a))
              (fun listener =>
                 try_catch (await_listener react meanwhile KindSpecific listener event)
                   (fun error =>
                      print_error console_error
                        ("Error in event listener for " +:+ type event +:+ ":") error);;
                 ret true)
              (fun w' => heap (hub w') = heap (hub w))
              (await_step react meanwhile KindSpecific
                 ("Error in event listener for " +:+ type event +:+ ":") event))
    with (fuel := fuel) (i := 0%nat) (w := w) as [Hrun _].
  - intros w' Hw'. simpl. by rewrite Hw'.
  - intros l w' Hl Hw'. split; [apply awaited_call_run, console_prints |].
    rewrite <- Hw'. apply await_step_heap. by apply Hspare.
  - done.
  - lia.
  - by rewrite drop_0 in Hrun.
Qed.

Lemma async_wildcard_loop_run event fuel w :
  (forall l, printable react console_error event l) ->
  (forall l, l ∈ set_live (globalListeners (hub w)) ->
             spares_wildcards (react l event) = true) ->
  (length (globalListeners (hub w)) < fuel)%nat ->
  for_of fuel GlobalSet 0 (fun listener =>
    try_catch (await_listener react meanwhile Wildcard listener event)
      (fun error => print_error console_error "Error in global event listener:" error);;
    ret true) w
  = Some (Normal true,
          fold_left (fun w x =>
                       await_step react meanwhile Wildcard
                         "Error in global event listener:" event x w)
            (set_live (globalListeners (hub w))) w).
Proof.
  intros console_prints Hspare Hfuel.
  destruct (for_of_fold GlobalSet (globalListeners (hub w))
              (fun listener =>
                 try_catch (await_listener react meanwhile Wildcard listener event)
                   (fun error =>
                      print_error console_error "Error in global event listener:" error);;
                 ret true)
              (fun w' => globalListeners (hub w') = globalListeners (hub w))
              (await_step react meanwhile Wildcard "Error in global event listener:"
                 event))
    with (fuel := fuel) (i := 0%nat) (w := w) as [Hrun _].
  - intros w' Hw'. simpl. by rewrite Hw'.
  - intros l w' Hl Hw'. split; [apply awaited_call_run, console_prints |].
    rewrite <- Hw'. apply await_step_wildcards. by apply Hspare.
  - done.
  - lia.
  - by rewrite drop_0 in Hrun.
Qed.

(** An accepted emission, suspended at every call, when no other code
    changes the subscriptions meanwhile, the console prints what is
    thrown, the listeners of the kind leave the sets of the kinds alone
    and the wildcard listeners leave the wildcard set alone.  The calls
    are those of [emit_run]; the subscriptions afterwards are what the
    listeners made of them. *)
Lemma emit_async_run fuel event w :
  (forall l, printable react console_error event l) ->
  forallb (fun f => accepts f event) (set_live (filters (hub w))) = true ->
  (forall l, l ∈ kind_listeners (type event) (hub w) ->
             spares_heap (react l event) = true) ->
  (forall l, l ∈ set_live (globalListeners (hub_after_kind react event (hub w))) ->
             spares_wildcards (react l event) = true) ->
  (length (filters (hub w)) < fuel)%nat ->
  (kind_slots (type event) (hub w) < fuel)%nat ->
  (length (globalListeners (hub_after_kind react event (hub w))) < fuel)%nat ->
  exists w',
    emit_async react accepts meanwhile console_error fuel event w
    = Some (Normal tt, w') /\
    trace w' = trace w
      ++ map (fun f => FilterRan f event) (set_live (filters (hub w)))
      ++ flat_map (fanout_obs react KindSpecific
                     ("Error in event listener for " +:+ type event +:+ ":") event)
           (kind_listeners (type event) (hub w))
      ++ flat_map (fanout_obs react Wildcard "Error in global event listener:" event)
           (set_live (globalListeners (hub_after_kind react event (hub w)))) /\
    same_registry (hub w')
      (after_listeners react event
         (set_live (globalListeners (hub_after_kind react event (hub w))))
         (hub_after_kind react event (hub w))).
Proof.
  intros console_prints Hpass Hkind Hglobal Hf1 Hf2 Hf3.
  unfold emit_async.
  erewrite bind_run by (apply filter_loop_run; exact Hf1).
  rewrite Hpass, (visited_forallb_true _ _ Hpass).
  set (w1 := {| hub := hub w; trace := _ |}).
  erewrite bind_run by reflexivity.
  erewrite bind_run by reflexivity.
  set (w2 := update_hub (addToHistory event) w1).
  destruct (addToHistory_registry event (hub w)) as (Hl2 & Hh2 & Hg2).
  change (hub w2) with (addToHistory event (hub w)). rewrite Hl2.
  assert (Hmid : exists w3,
    (match listeners (hub w) !! type event with
     | Some a =>
         for_of fuel (HeapSet a) 0 (fun listener =>
           try_catch (await_listener react meanwhile KindSpecific listener event)
             (fun error =>
                print_error console_error
                  ("Error in event listener for " +:+ type event +:+ ":") error);;
           ret true);;
         ret tt
     | None => ret tt
     end) w2 = Some (Normal tt, w3) /\
    trace w3 = trace w2 ++
      flat_map (fanout_obs react KindSpecific
                  ("Error in event listener for " +:+ type event +:+ ":") event)
        (kind_listeners (type event) (hub w)) /\
    same_registry (hub w3) (hub_after_kind react event (hub w))).
  { unfold hub_after_kind, kind_listeners, kind_slots in *.
    destruct (listeners (hub w) !! type event) as [a |] eqn:Ha.
    - assert (Hh : heap (hub w2) = heap (hub w)) by exact Hh2.
      eexists. split.
      + erewrite bind_run; [reflexivity |].
        apply async_kind_loop_run; rewrite ?Hh;
          [exact console_prints | exact Hkind | exact Hf2].
      + rewrite Hh. apply fold_await_step. apply same_registry_refl.
    - exists w2. split; [done |]. split; [by rewrite app_nil_r |].
      apply same_registry_refl. }
  destruct Hmid as (w3 & Hrun3 & Htr3 & Hreg3).
  erewrite bind_run by exact Hrun3.
  assert (Hg3 : globalListeners (hub w3)
                = globalListeners (hub_after_kind react event (hub w))) by apply Hreg3.
  eexists. split.
  - erewrite bind_run; [reflexivity |].
    apply async_wildcard_loop_run; rewrite ?Hg3;
      [exact console_prints | exact Hglobal | exact Hf3].
  - rewrite Hg3.
    destruct (fold_await_step Wildcard "Error in global event listener:" event
                (set_live (globalListeners (hub_after_kind react event (hub w))))
                w3 (hub_after_kind react event (hub w)) Hreg3) as [Htr4 Hreg4].
    split; [| exact Hreg4].
    rewrite Htr4, Htr3. subst w2 w1. simpl. by rewrite <- !app_assoc.
Qed.

(** The same, when the listeners leave the subscriptions alone
    altogether: every listener of the kind and every wildcard listener
    subscribed at the start is called once, in insertion order. *)
Lemma emit_async_quiet fuel event w :
  (forall l, printable react console_error event l) ->
  forallb (fun f => accepts f event) (set_live (filters (hub w))) = true ->
  (forall l, l ∈ kind_listeners (type event) (hub w) ->
             leaves_registry (react l event) = true) ->
  (forall l, l ∈ set_live (globalListeners (hub w)) ->
             leaves_registry (react l event) = true) ->
  enough_fuel fuel event (hub w) ->
  exists w',
    emit_async react accepts meanwhile console_error fuel event w
    = Some (Normal tt, w') /\
    trace w' = trace w
      ++ map (fun f => FilterRan f event) (set_live (filters (hub w)))
      ++ flat_map (fanout_obs react KindSpecific
                     ("Error in event listener for " +:+ type event +:+ ":") event)
           (kind_listeners (type event) (hub w))
      ++ flat_map (fanout_obs react Wildcard "Error in global event listener:" event)
           (set_live (globalListeners (hub w))) /\
    same_registry (hub w') (hub w).
Proof.
  intros Hprint Hpass Hkind Hglobal (Hf1 & Hf2 & Hf3).
  assert (Hmid : same_registry (hub_after_kind react event (hub w)) (hub w)).
  { unfold hub_after_kind. eapply same_registry_trans.
    - apply after_listeners_registry. exact Hkind.
    - apply addToHistory_registry. }
  assert (Hg : globalListeners (hub_after_kind react event (hub w))
               = globalListeners (hub w)) by apply Hmid.
  destruct (emit_async_run fuel event w Hprint Hpass) as (w' & Hrun & Htr & Hreg);
    rewrite ?Hg; try done.
  - intros l Hl. by apply leaves_registry_spares, Hkind.
  - intros l Hl. by apply leaves_registry_spares, Hglobal.
  - rewrite Hg in Htr, Hreg. exists w'. split; [done |]. split; [done |].
    eapply same_registry_trans; [exact Hreg |].
    eapply same_registry_trans; [| exact Hmid].
    apply after_listeners_registry. exact Hglobal.
Qed.

End EmitAsyncFacts.

(** [emit] is [emit_async] in a run where nobody else calls the hub
    while it is suspended and the console prints what it is given. *)
Lemma awaited_call_undisturbed react scope message l event w :
  (try_catch (await_listener react undisturbed scope l event)
     (fun error => print_error prints message error);;
   ret true) w
  = (try_catch (call_listener react scope l event)
       (fun error => tell (ConsoleError message error));;
     ret true) w.
Proof.
  rewrite awaited_call_run by (by intros e _).
  rewrite guarded_call_run. unfold await_step, undisturbed, fanout_obs. simpl.
  do 3 f_equal. destruct (outcome (react l event)); by rewrite <- app_assoc.
Qed.

Lemma emit_async_undisturbed react accepts fuel event w :
  emit_async react accepts undisturbed prints fuel event w
  = emit react accepts fuel event w.
Proof.
  unfold emit_async, emit.
  apply bind_ext; [done |]. intros [|] w1; [| done].
  apply bind_ext; [done |]. intros u2 w2.
  apply bind_ext; [done |]. intros typeListeners w3.
  apply bind_ext.
  - destruct typeListeners as [address |]; [| done].
    apply bind_ext; [| done]. apply for_of_ext.
    intros; apply awaited_call_undisturbed.
  - intros u4 w4. apply bind_ext; [| done]. apply for_of_ext.
    intros; apply awaited_call_undisturbed.
Qed.

(* ===================================================================== *)
(** * Exceptions and the fan-out *)
(* ===================================================================== *)

Lemma never_throws_bind {A B} (c : M A) (k : A -> M B) :
  never_throws c -> (forall a, never_throws (k a)) -> never_throws (x ← c; k x).
Proof.
  intros Hc Hk w e w'. unfold mbind, M_bind.
  destruct (c w) as [[[a | e1] w1] |] eqn:Hcw; [apply Hk | | done].
  exfalso. exact (Hc w e1 w1 Hcw).
Qed.

Lemma never_throws_ret {A} (a : A) : never_throws (ret a).
Proof. by intros w e w'. Qed.

Lemma never_throws_for_of r (body : nat -> M bool) :
  (forall x, never_throws (body x)) ->
  forall fuel i, never_throws (for_of fuel r i body).
Proof.
  intros Hbody fuel. induction fuel as [| fuel IH]; intros i w e w'; [done |].
  simpl. destruct (deref r (hub w) !! i) as [[x |] |]; [| apply IH | done].
  apply never_throws_bind; [apply Hbody |].
  intros [|]; [apply IH | apply never_throws_ret].
Qed.

Section Printed.

Variable react : nat -> MinecraftEvent -> Reaction.
Variable accepts : nat -> MinecraftEvent -> bool.
Variable meanwhile : World -> list HubOp.
Variable console_error : string -> Outcome.

Hypothesis console_prints : forall e, console_error e = Returns.

Lemma always_printable (r : nat -> MinecraftEvent -> Reaction) event l :
  printable r console_error event l.
Proof. intros e _. apply console_prints. Qed.

Lemma awaited_call_never_throws scope message l event :
  never_throws
    (try_catch (await_listener react meanwhile scope l event)
       (fun error => print_error console_error message error);;
     ret true).
Proof.
  intros w e w'. by rewrite awaited_call_run by apply always_printable.
Qed.

(** While the console prints, no exception leaves [emit]. *)
Lemma emit_async_never_throws fuel event :
  never_throws (emit_async react accepts meanwhile console_error fuel event).
Proof.
  unfold emit_async.
  apply never_throws_bind.
  { apply never_throws_for_of. intros f w e w'. by rewrite call_filter_run. }
  intros [|]; [| apply never_throws_ret].
  apply never_throws_bind; [by intros w e w' |]. intros _.
  apply never_throws_bind; [by intros w e w' |]. intros typeListeners.
  apply never_throws_bind.
  { destruct typeListeners as [a |]; [| apply never_throws_ret].
    apply never_throws_bind; [| intros; apply never_throws_ret].
    apply never_throws_for_of. intros; apply awaited_call_never_throws. }
  intros _.
  apply never_throws_bind; [| intros; apply never_throws_ret].
  apply never_throws_for_of. intros; apply awaited_call_never_throws.
Qed.

Hypothesis others_are_blind : blind_to_console meanwhile.

(** The awaited call with the listeners as they are and with the
    listeners calmed. *)
Lemma awaited_call_alike scope message l event w1 w2 :
  alike w1 w2 ->
  alike_runs
    ((try_catch (await_listener react meanwhile scope l event)
        (fun error => print_error console_error message error);;
      ret true) w1)
    ((try_catch (await_listener (calm react) meanwhile scope l event)
        (fun error => print_error console_error message error);;
      ret true) w2).
Proof.
  intros [Hhub Htr]. rewrite !awaited_call_run by apply always_printable.
  assert (Hmean :
    meanwhile
      (update_hub (apply_ops (ops (react l event)))
         (observe (ListenerRan scope l event) w1))
    = meanwhile
        (update_hub (apply_ops (ops (react l event)))
           (observe (ListenerRan scope l event) w2))).
  { apply others_are_blind. split; simpl; [by rewrite Hhub |].
    by rewrite !without_console_app, Htr. }
  split; [done |]. split; simpl.
  - change (ops (calm react l event)) with (ops (react l event)).
    by rewrite Hmean, Hhub.
  - rewrite !without_console_app, Htr. simpl.
    by destruct (outcome (react l event)).
Qed.

Lemma emit_async_alike fuel event w1 w2 :
  alike w1 w2 ->
  alike_runs (emit_async react accepts meanwhile console_error fuel event w1)
             (emit_async (calm react) accepts meanwhile console_error fuel event w2).
Proof.
  intros Hw. unfold emit_async.
  apply alike_bind.
  { apply for_of_alike; [| done]. intros; by apply call_filter_alike. }
  intros [|] v1 v2 Hv; [| by apply alike_ret].
  apply alike_bind; [by apply alike_modify_hub |].
  intros _ u1 u2 Hu.
  apply alike_bind; [by apply alike_read_hub |].
  intros typeListeners x1 x2 Hx.
  apply alike_bind.
  { destruct typeListeners as [a |]; [| by apply alike_ret].
    apply alike_bind; [| intros; by apply alike_ret].
    apply for_of_alike; [| done]. intros; by apply awaited_call_alike. }
  intros _ y1 y2 Hy.
  apply alike_bind; [| intros; by apply alike_ret].
  apply for_of_alike; [| done]. intros; by apply awaited_call_alike.
Qed.

End Printed.

(** Listener isolation, as far as it goes: while [console.error] returns
    for what the listeners throw.  (1) No exception leaves [emit].
    (2) When the code that runs during the suspensions does not look at
    the console, which listeners are called, and what becomes of the hub,
    is the same as if no listener threw.  (3) When nothing changes the
    subscriptions, every listener of the kind and then every wildcard
    listener is called, and each throw is written to the console right
    after the call that raised it. *)
Lemma printed_failures_are_isolated
    (react : nat -> MinecraftEvent -> Reaction)
    (accepts : nat -> MinecraftEvent -> bool)
    (meanwhile : World -> list HubOp) (console_error : string -> Outcome)
    (fuel : nat) (event : MinecraftEvent) (w : World) :
  (forall e, console_error e = Returns) ->
  (forall error w',
     emit_async react accepts meanwhile console_error fuel event w
     <> Some (Abrupt error, w')) /\
  (blind_to_console meanwhile ->
   match emit_async react accepts meanwhile console_error fuel event w,
         emit_async (calm react) accepts meanwhile console_error fuel event w with
   | Some (_, w1), Some (_, w2) =>
       hub w1 = hub w2 /\
       listeners_run KindSpecific (trace w1) = listeners_run KindSpecific (trace w2) /\
       listeners_run Wildcard (trace w1) = listeners_run Wildcard (trace w2)
   | None, None => True
   | _, _ => False
   end) /\
  ((forall w', registry_free (meanwhile w') = true) ->
   forallb (fun f => accepts f event) (set_live (filters (hub w))) = true ->
   (forall l, l ∈ kind_listeners (type event) (hub w) ->
              leaves_registry (react l event) = true) ->
   (forall l, l ∈ set_live (globalListeners (hub w)) ->
              leaves_registry (react l event) = true) ->
   enough_fuel fuel event (hub w) ->
   exists w',
     emit_async react accepts meanwhile console_error fuel event w
     = Some (Normal tt, w') /\
     trace w' = trace w
       ++ map (fun f => FilterRan f event) (set_live (filters (hub w)))
       ++ flat_map (fanout_obs react KindSpecific
                      ("Error in event listener for " +:+ type event +:+ ":") event)
            (kind_listeners (type event) (hub w))
       ++ flat_map (fanout_obs react Wildcard "Error in global event listener:" event)
            (set_live (globalListeners (hub w)))).
Proof.
  intros Hprints. split; [| split].
  - apply emit_async_never_throws. exact Hprints.
  - intros Hblind.
    pose proof (emit_async_alike react accepts meanwhile console_error Hprints Hblind
                  fuel event w w (alike_refl w)) as Halike.
    destruct (emit_async react accepts meanwhile console_error fuel event w)
      as [[[[] | e1] w1] |],
      (emit_async (calm react) accepts meanwhile console_error fuel event w)
      as [[[[] | e2] w2] |];
      simpl in Halike; try done.
    destruct Halike as [_ Hw]. split; [apply Hw |].
    split; by apply alike_listeners_run.
  - intros Hothers Hpass Hkind Hglobal Hfuel.
    destruct (emit_async_quiet react accepts meanwhile console_error Hothers fuel event w)
      as (w' & Hrun & Htr & _); try done.
    + intros l e _. apply Hprints.
    + by exists w'.
Qed.

(** C4. Listener isolation fails where the [catch] handler fails.  The
    handler prints the thrown value with [console.error], and printing
    inspects the value; when the inspection throws, that exception leaves
    the handler, the loop and [emit].  On the hub with listeners 1 and 2
    on chat and 3 on the wildcard, listener 1 throws a value that the
    console cannot print: [emit] completes with the exception of the
    console, whatever else happens during the suspension, and listeners 2
    and 3 are not called. *)
Theorem unprintable_error_escapes_emit (meanwhile : World -> list HubOp) :
  exists w',
    emit_async thrower pass meanwhile hostile_console 4 (sample 1) (start chat_hub)
    = Some (Abrupt "inspect failed", w') /\
    trace w' = [FilterRan 7 (sample 1); ListenerRan KindSpecific 1 (sample 1)] /\
    kind_listeners (type (sample 1)) chat_hub = [1; 2]%nat /\
    set_live (globalListeners chat_hub) = [3]%nat.
Proof. eexists. split; [reflexivity |]. by repeat split. Qed.

(** The same run with a console that prints: the three listeners are
    called, and the throw is on the console. *)
Lemma printed_error_stays_in_emit :
  exists w',
    emit_async thrower pass undisturbed prints 4 (sample 1) (start chat_hub)
    = Some (Normal tt, w') /\
    trace w' =
      [FilterRan 7 (sample 1);
       ListenerRan KindSpecific 1 (sample 1);
       ConsoleError "Error in event listener for chat:" "boom";
       ListenerRan KindSpecific 2 (sample 1);
       ListenerRan Wildcard 3 (sample 1)].
Proof. eexists. split; reflexivity. Qed.

(* ===================================================================== *)
(** * The fan-out and the subscriptions *)
(* ===================================================================== *)

(** The sets are not copied for the loop, and the loop is suspended at
    every call: a caller that does not await the promise of [emit] and
    unsubscribes wildcard listener 2 right after the call keeps 2 from
    being called, though 2 was subscribed when the event was accepted and
    no listener touched the subscriptions. *)
Lemma unsubscription_during_an_await :
  exists w',
    emit_async idle pass impatient_caller prints 5 (sample 1) (start two_wildcards)
    = Some (Normal tt, w') /\
    set_live (globalListeners two_wildcards) = [1; 2]%nat /\
    listeners_run Wildcard (trace w') = [1]%nat.
Proof. eexists. split; [reflexivity |]. by split. Qed.







(* ===================================================================== *)
(** * History queries *)
(* ===================================================================== *)

Lemma getHistory_matching kind limit m :
  getHistory kind limit m = slice (- default 100 limit) (matching kind m).
Proof. reflexivity. Qed.

Lemma matching_kind k m e :
  k <> "" -> e ∈ matching (Some k) m -> type e = k /\ e ∈ eventHistory m.
Proof.
  intros Hk. unfold matching. destruct (String.eqb_spec k ""); [done |].
  intros He. apply list_elem_of_In, filter_In in He as [He Ht].
  split; [by apply String.eqb_eq | by apply list_elem_of_In].
Qed.

(** With a positive limit a query gives the last [limit] entries of the
    kind asked for (all of them when there are fewer), in the order they
    were stored; every entry it gives is of that kind. *)
Theorem query_gives_the_latest_of_the_kind
    (kind : option string) (limit : Z) (m : EventManager) :
  0 < limit ->
  getHistory kind (Some limit) m
  = drop (length (matching kind m) - Z.to_nat limit) (matching kind m) /\
  length (getHistory kind (Some limit) m)
  = Nat.min (length (matching kind m)) (Z.to_nat limit) /\
  sublist (getHistory kind (Some limit) m) (eventHistory m) /\
  (forall k e, kind = Some k -> k <> "" ->
               e ∈ getHistory kind (Some limit) m -> type e = k).
Proof.
  intros Hpos. rewrite getHistory_matching. simpl default.
  rewrite slice_last by done.
  split; [done |]. split; [rewrite length_drop; lia |]. split.
  - rewrite <- slice_last by done. apply (getHistory_order kind (Some limit) m).
  - intros k e -> Hk He.
    assert (Hin : e ∈ matching (Some k) m).
    { rewrite <- (take_drop (length (matching (Some k) m) - Z.to_nat limit)
                    (matching (Some k) m)).
      apply elem_of_app. by right. }
    by apply (matching_kind k m e Hk).
Qed.

Lemma query_gives_the_latest_of_the_kind_witness :
  getHistory (Some "chat") (Some 2)
    (record_all [sample 1; sample 2; sample 3] new_EventManager)
  = [sample 2; sample 3].
Proof.
  pose proof (query_gives_the_latest_of_the_kind (Some "chat") 2
                (record_all [sample 1; sample 2; sample 3] new_EventManager))
    as [Hq _]; [lia |].
  exact Hq.
Defined.

(** The edges of the arguments of a query.  An empty string as kind is no
    kind at all.  A negative limit does not limit: [slice] then counts
    from the front, and the query gives everything but the [-limit]
    oldest entries. *)
Theorem query_with_edge_arguments (limit : option Z) (n : Z) (m : EventManager) :
  getHistory (Some "") limit m = getHistory None limit m /\
  (n < 0 ->
   forall kind,
     getHistory kind (Some n) m = drop (Z.to_nat (- n)) (matching kind m)).
Proof.
  split; [reflexivity |].
  intros Hneg kind. rewrite getHistory_matching. simpl default. unfold slice.
  destruct (Z.ltb_spec (- n) 0); [lia |].
  destruct (Z.le_gt_cases (- n) (Z.of_nat (length (matching kind m)))) as [Hle | Hgt].
  - by rewrite Z.min_l by done.
  - rewrite Z.min_r, Nat2Z.id by lia. rewrite !drop_ge; [done | lia | lia].
Qed.

Lemma query_with_edge_arguments_witness :
  getHistory None (Some (- 1))
    (record_all [sample 1; sample 2; sample 3] new_EventManager)
  = [sample 2; sample 3].
Proof.
  pose proof (query_with_edge_arguments None (- 1)
                (record_all [sample 1; sample 2; sample 3] new_EventManager))
    as [_ Hq].
  apply (Hq ltac:(lia) None).
Defined.

(** [clearHistory] empties the buffer and nothing else: every query is
    empty, the capacity and the subscriptions are as before, and with a
    capacity of at least one the next stored event is the only entry. *)
Theorem clearHistory_starts_over (kind : option string) (limit : option Z)
    (event : MinecraftEvent) (m : EventManager) :
  getHistory kind limit (clearHistory m) = [] /\
  maxHistorySize (clearHistory m) = maxHistorySize m /\
  same_registry (clearHistory m) m /\
  filters (clearHistory m) = filters m /\
  (1 <= maxHistorySize m ->
   eventHistory (addToHistory event (clearHistory m)) = [event]).
Proof.
  split; [| split; [done | split; [by repeat split | split; [done |]]]].
  - rewrite getHistory_matching.
    assert (Hm : matching kind (clearHistory m) = []).
    { unfold matching. simpl. destruct kind as [k |]; [| done]. by destruct (String.eqb k ""). }
    rewrite Hm. unfold slice. by rewrite drop_nil.
  - intros Hcap. by rewrite addToHistory_room by (simpl; lia).
Qed.

Lemma clearHistory_starts_over_witness :
  eventHistory
    (addToHistory (sample 9)
       (clearHistory (record_all [sample 1; sample 2] new_EventManager)))
  = [sample 9].
Proof.
  apply (clearHistory_starts_over None None (sample 9)
           (record_all [sample 1; sample 2] new_EventManager)).
  vm_compute. discriminate.
Defined.

(* ===================================================================== *)
(** * A listener that unsubscribes and subscribes itself again *)
(* ===================================================================== *)







(* ===================================================================== *)
(** * More on the notifier *)
(* ===================================================================== *)

Section NotifierMore.

Variable toLocaleTimeString : Z -> string.
Variable number_to_string : Q -> string.

(** The fall-back chain.  [sendMcpNotification] calls the first
    capability of the host that is a function, in the order notification,
    sendNotification, prompt, and no other: a capability that throws is
    not followed by the next one but by two lines in the log.  With no
    capability the message goes to the log.  So the host is called at
    most once, and the message is either handed to a call that returned
    or written to the log. *)
Theorem host_is_called_at_most_once
    (message : string) (event : MinecraftEvent) (s : McpServer) :
  sendMcpNotification message event s
  = match first_capability s with
    | None => [Logged "info" ("[事件通知] " +:+ message)]
    | Some (name, Returns) => [host_call name message event]
    | Some (name, Throws e) => host_call name message event :: log_fallback e message
    end /\
  (length (List.filter is_host_call (sendMcpNotification message event s)) <= 1)%nat /\
  ((exists name, first_capability s = Some (name, Returns)) \/
   Logged "info" ("[事件通知] " +:+ message) ∈ sendMcpNotification message event s).
Proof.
  unfold sendMcpNotification, first_capability.
  destruct (notification s) as [[| e1] |].
  - split; [done |]. split; [simpl; lia |]. left. by eexists.
  - split; [done |]. split; [simpl; lia |]. right. unfold log_fallback.
    apply list_elem_of_In. simpl. auto.
  - destruct (sendNotification s) as [[| e2] |].
    + split; [done |]. split; [simpl; lia |]. left. by eexists.
    + split; [done |]. split; [simpl; lia |]. right. unfold log_fallback.
      apply list_elem_of_In. simpl. auto.
    + destruct (prompt s) as [[| e3] |].
      * split; [done |]. split; [simpl; lia |]. left. by eexists.
      * split; [done |]. split; [simpl; lia |]. right. unfold log_fallback.
        apply list_elem_of_In. simpl. auto.
      * split; [done |]. split; [simpl; lia |]. right. apply list_elem_of_here.
Qed.

Lemma recognized key : In key recognized_keys -> key ∈ recognized_keys.
Proof. apply list_elem_of_In. Qed.

(** The details line is made of the recognized keys only: two payloads
    that agree on position, username, health, maxHealth, entityType,
    blockName, reason and message are formatted alike, whatever else
    they hold; and a payload with none of them adds no second line. *)
Theorem details_read_recognized_keys_only
    (event : MinecraftEvent) (d1 d2 : Payload) :
  (forall key, key ∈ recognized_keys -> assoc key d1 = assoc key d2) ->
  formatEventData number_to_string d1 = formatEventData number_to_string d2 /\
  formatEventForAI toLocaleTimeString number_to_string (with_data (Some d1) event)
  = formatEventForAI toLocaleTimeString number_to_string (with_data (Some d2) event) /\
  ((forall key, key ∈ recognized_keys -> assoc key d1 = VUndefined) ->
   formatEventForAI toLocaleTimeString number_to_string (with_data (Some d1) event)
   = headline toLocaleTimeString event).
Proof.
  intros Hsame.
  assert (Hdata : formatEventData number_to_string d1
                  = formatEventData number_to_string d2).
  { unfold formatEventData.
    rewrite !(Hsame "position"), !(Hsame "username"), !(Hsame "health"),
      !(Hsame "maxHealth"), !(Hsame "entityType"), !(Hsame "blockName"),
      !(Hsame "reason"), !(Hsame "message")
      by (apply recognized; simpl; tauto).
    reflexivity. }
  split; [exact Hdata |]. split.
  - unfold formatEventForAI. simpl. by rewrite Hdata.
  - intros Hnone. unfold formatEventForAI, formatEventData. simpl.
    rewrite !(Hnone "position"), !(Hnone "username"), !(Hnone "health"),
      !(Hnone "maxHealth"), !(Hnone "entityType"), !(Hnone "blockName"),
      !(Hnone "reason"), !(Hnone "message")
      by (apply recognized; simpl; tauto).
    reflexivity.
Qed.


End NotifierMore.


Lemma details_read_recognized_keys_only_witness :
  formatEventData no_digits [("slot", VNum 3); ("reason", VStr "lava")]
  = formatEventData no_digits [("reason", VStr "lava"); ("isBot", VBool true)].
Proof.
  apply (details_read_recognized_keys_only (fun _ => "") no_digits (sample 1)).
  intros key Hkey. apply list_elem_of_In in Hkey. simpl in Hkey.
  repeat (destruct Hkey as [<- | Hkey]; [reflexivity |]). by destruct Hkey.
Defined.

(* ===================================================================== *)
(** * More on the bot event registry *)
(* ===================================================================== *)

Section RegistryMore.

Variable digits : Q -> string.

(** What every handler has in common: a signal gives at most one event,
    and exactly one unless its handler has a condition; the event is
    stamped with the clock at the signal; and only the spawn and the move
    handler change what the registry remembers. *)
Theorem a_signal_gives_at_most_one_event
    (bot : Bot) (signal : Signal) (st : BotEventRegistry) :
  (length (snd (handle digits bot signal st)) <= 1)%nat /\
  (unconditional signal = true -> length (snd (handle digits bot signal st)) = 1%nat) /\
  (forall e, e ∈ snd (handle digits bot signal st) -> timestamp e = now bot) /\
  (signal <> SigSpawn -> signal <> SigMove -> fst (handle digits bot signal st) = st).
Proof.
  destruct signal; simpl;
    unfold on_spawn, on_chat, on_blockUpdate, on_blockBreakProgressObserved,
      on_updateSlot, on_move;
    repeat case_match; simpl;
    (split; [lia |]; split; [done |]; split;
     [first [by intros ev ->%list_elem_of_singleton | by intros ev ?%elem_of_nil]
     | done]).
Qed.

Lemma handle_kind_severity bot signal st (e : MinecraftEvent) :
  e ∈ snd (handle digits bot signal st) ->
  type e = kind_of signal /\ severity e = severity_of signal.
Proof.
  destruct signal; simpl;
    unfold on_spawn, on_chat, on_blockUpdate, on_blockBreakProgressObserved,
      on_updateSlot, on_move;
    repeat case_match; simpl;
    first [by intros ->%list_elem_of_singleton | by intros ?%elem_of_nil].
Qed.

(** The kind and the severity of an event are fixed by the signal it
    comes from: spawn and respawn are successes, end and hurt warnings,
    kicked, death and error errors, everything else is information; a
    whisper is a chat event. *)
Theorem kind_and_severity_follow_the_signal
    (bot : Bot) (signal : Signal) (st : BotEventRegistry) (e : MinecraftEvent) :
  e ∈ snd (handle digits bot signal st) ->
  type e = kind_of signal /\ severity e = severity_of signal.
Proof. apply handle_kind_severity. Qed.

Lemma moves_of_cons events outputs :
  moves_of (events :: outputs)
  = List.filter (fun e => String.eqb (type e) "move") events ++ moves_of outputs.
Proof. unfold moves_of. simpl. by rewrite List.filter_app. Qed.

Lemma move_window_ignores_others_from signals st1 st2 :
  lastMoveTime st1 = lastMoveTime st2 ->
  moves_of (run digits signals st1)
  = moves_of (run digits (List.filter is_signal_move signals) st2).
Proof.
  revert st1 st2. induction signals as [| [bot signal] rest IH]; intros st1 st2 Heq;
    [done |].
  rewrite run_cons, moves_of_cons.
  destruct (is_signal_move (bot, signal)) eqn:Hmove.
  - simpl List.filter. rewrite Hmove, run_cons, moves_of_cons.
    destruct signal; try discriminate Hmove. simpl. unfold on_move. rewrite Heq.
    destruct (move_now bot - lastMoveTime st2 <? 500); simpl; [by apply IH |].
    destruct (bot_position bot); simpl; [f_equal |]; by apply IH.
  - simpl List.filter. rewrite Hmove.
    destruct (handle_move_effect digits bot signal st1) as [[Hsame ->] | [-> _]];
      [| discriminate Hmove].
    simpl. apply IH. congruence.
Qed.

(** The window of the move handler is its own: the move events of a run
    are those of the run with every other signal left out.  No other
    signal opens, closes or restarts the window; a jump in particular is
    not held back by it and does not hold a move back. *)
Theorem move_window_ignores_other_signals
    (signals : list (Bot * Signal)) (bot : Bot) (st : BotEventRegistry) :
  moves_of (run digits signals st)
  = moves_of (run digits (List.filter is_signal_move signals) st) /\
  (exists e, handle digits bot SigJump st = (st, [e]) /\ type e = "jump").
Proof. split; [by apply move_window_ignores_others_from | by eexists]. Qed.

(** The payload of an error event: the code is the code of the error, or
    "Unknown error" when the error has none or an empty one, so it is
    never empty; the stack is there only when the error brought one. *)
Theorem error_code_has_a_default
    (bot : Bot) (code : option string) (message : string) (stack : option string)
    (st : BotEventRegistry) :
  exists e d c,
    handle digits bot (SigError code message stack) st = (st, [e]) /\
    data e = Some d /\
    assoc "error" d = VStr message /\
    assoc "code" d = VStr c /\ c <> "" /\
    (code = None \/ code = Some "" -> c = "Unknown error") /\
    (forall c0, code = Some c0 -> c0 <> "" -> c = c0) /\
    assoc "stack" d = optional VStr stack.
Proof.
  simpl. unfold on_error.
  destruct code as [c0 |]; [destruct (String.eqb_spec c0 "") as [-> | Hne] |].
  - do 3 eexists. repeat split; try done. intros c1 [= <-]. done.
  - exists (make_event (now bot) "error" ERROR
              ("机器人错误 [" +:+ c0 +:+ "]: " +:+ message)
              (Some [("error", VStr message); ("code", VStr c0);
                     ("stack", optional VStr stack)])).
    do 2 eexists. repeat split; try done.
    + intros [? | [= ->]]; done.
    + by intros c1 [= <-].
  - do 3 eexists. repeat split; try done.
Qed.

End RegistryMore.

Lemma a_signal_gives_at_most_one_event_witness :
  length (snd (handle no_digits (bot_at 1000 origin) SigDeath registered)) = 1%nat /\
  (forall e, e ∈ snd (handle no_digits (bot_at 1000 origin) SigDeath registered) ->
             timestamp e = 1000) /\
  fst (handle no_digits (bot_at 1000 origin) SigDeath registered) = registered.
Proof.
  pose proof (a_signal_gives_at_most_one_event no_digits (bot_at 1000 origin) SigDeath
                registered) as (_ & Hone & Hstamp & Hstate).
  split; [by apply Hone |]. split; [exact Hstamp | by apply Hstate].
Defined.

Lemma kind_and_severity_follow_the_signal_witness :
  type (make_event 1000 "chat" INFO ("[私聊] " +:+ "Steve" +:+ ": " +:+ "hi")
          (Some [("username", VStr "Steve"); ("message", VStr "hi");
                 ("isBot", VBool false); ("isWhisper", VBool true)]))
  = kind_of (SigWhisper "Steve" "hi") /\
  severity (make_event 1000 "chat" INFO ("[私聊] " +:+ "Steve" +:+ ": " +:+ "hi")
              (Some [("username", VStr "Steve"); ("message", VStr "hi");
                     ("isBot", VBool false); ("isWhisper", VBool true)]))
  = severity_of (SigWhisper "Steve" "hi").
Proof.
  apply (kind_and_severity_follow_the_signal no_digits (bot_at 1000 origin)
           (SigWhisper "Steve" "hi") registered).
  simpl. apply list_elem_of_here.
Defined.

(* ===================================================================== *)
(** * The adapter and the notifier together *)
(* ===================================================================== *)




Lemma max_health_truthy bot : truthy (VNum (max_health bot)) = true.
Proof.
  unfold max_health. destruct (maxHealth bot) as [n |]; [| done].
  by destruct (truthy (VNum n)) eqn:Hn.
Qed.

(** A change of health as the notifier words it.  The two health events
    always carry both numbers, so the details line is always there and
    reads health/maximum, also when the health is 0 or [NaN].  The
    maximum is the bot's own when that is truthy, and 20 when the bot has
    none or has 0 or [NaN]; so it is never 0 or [NaN]. *)
Theorem health_is_worded_with_its_maximum
    (clock : Z -> string) (digits : Q -> string) (bot : Bot) (st : BotEventRegistry) :
  (exists e,
     handle digits bot SigHealth st = (st, [e]) /\
     formatEventForAI clock digits e
     = headline clock e +:+ newline +:+ "   详情: "
       +:+ ("生命值: " +:+ number_text digits (health bot) +:+ "/"
              +:+ number_text digits (max_health bot))) /\
  (exists e,
     handle digits bot SigHurt st = (st, [e]) /\
     formatEventForAI clock digits e
     = headline clock e +:+ newline +:+ "   详情: "
       +:+ ("生命值: " +:+ number_text digits (health bot) +:+ "/"
              +:+ number_text digits (max_health bot))) /\
  truthy (VNum (max_health bot)) = true /\
  (forall n, maxHealth bot = Some n -> truthy (VNum n) = true -> max_health bot = n) /\
  (maxHealth bot = None \/
   (exists n, maxHealth bot = Some n /\ truthy (VNum n) = false) ->
   max_health bot = JSFinite 20).
Proof.
  split; [| split; [| split; [| split]]].
  - eexists. split; [reflexivity |]. reflexivity.
  - eexists. split; [reflexivity |]. reflexivity.
  - apply max_health_truthy.
  - intros n Hn Ht. unfold max_health. by rewrite Hn, Ht.
  - intros [Hnone | (n & Hn & Ht)]; unfold max_health.
    + by rewrite Hnone.
    + by rewrite Hn, Ht.
Qed.

(** A bot with a maximum of 40 keeps it; a bot without one gets 20. *)
Lemma health_is_worded_with_its_maximum_witness :
  max_health sturdy_bot = JSFinite 40 /\ max_health wounded_bot = JSFinite 20.
Proof.
  split.
  - apply (proj1 (proj2 (proj2 (proj2
             (health_is_worded_with_its_maximum (fun _ => "") no_digits sturdy_bot
                registered))))); reflexivity.
  - apply (proj2 (proj2 (proj2 (proj2
             (health_is_worded_with_its_maximum (fun _ => "") no_digits wounded_bot
                registered))))).
    by left.
Defined.

(* ===================================================================== *)
(** * Registering filters *)
(* ===================================================================== *)

Lemma filters_asked_accepted react event fs ks gs t :
  t = map (fun f => FilterRan f event) fs
      ++ flat_map (fanout_obs react KindSpecific
                     ("Error in event listener for " +:+ type event +:+ ":") event) ks
      ++ flat_map (fanout_obs react Wildcard "Error in global event listener:" event) gs ->
  omap (fun o => match o with FilterRan f _ => Some f | _ => None end) t = fs.
Proof.
  intros ->. rewrite !omap_app.
  assert (Hno : forall scope message ls,
    omap (fun o => match o with FilterRan g _ => Some g | _ => None end)
      (flat_map (fanout_obs react scope message event) ls) = []).
  { intros scope message ls. induction ls as [| l ls IH]; [done |].
    simpl. rewrite omap_app, IH. unfold fanout_obs.
    by destruct (outcome (react l event)). }
  rewrite !Hno, !app_nil_r.
  induction fs as [| g fs IH]; [done |]. simpl. f_equal. exact IH.
Qed.

(** [addFilter] puts a new filter last and does nothing for a filter
    that is registered already; an accepted emission asks every
    registered filter once, in the order of registration. *)
Theorem filters_are_asked_in_registration_order
    (react : nat -> MinecraftEvent -> Reaction)
    (accepts : nat -> MinecraftEvent -> bool)
    (fuel : nat) (event : MinecraftEvent) (m : EventManager) (f : nat) :
  forallb (fun g => accepts g event) (set_live (filters m)) = true ->
  accepts f event = true ->
  (forall l, ops (react l event) = []) ->
  enough_fuel fuel event m ->
  (length (filters m) + 1 < fuel)%nat ->
  addFilter f (addFilter f m) = addFilter f m /\
  exists w',
    emit react accepts fuel event (start (addFilter f m)) = Some (Normal tt, w') /\
    filters_asked w'
    = (if decide (f ∈ set_live (filters m)) then set_live (filters m)
       else set_live (filters m) ++ [f]) /\
    eventHistory (hub w') = eventHistory (addToHistory event m).
Proof.
  intros Hpass Hf Hobs (Hf1 & Hf2 & Hf3) Hfuel.
  assert (Hlive : set_live (filters (addFilter f m))
                  = if decide (f ∈ set_live (filters m)) then set_live (filters m)
                    else set_live (filters m) ++ [f]).
  { simpl. rewrite set_add_live. destruct (set_has f (filters m)) eqn:Hin.
    - apply set_has_live in Hin. by rewrite decide_True.
    - rewrite decide_False; [done |]. rewrite <- set_has_live. congruence. }
  split.
  - unfold addFilter, with_filters. simpl. by rewrite set_add_idem.
  - eexists. split.
    + apply emit_observers; [| exact Hobs |].
      * rewrite Hlive. case_decide; [done |].
        rewrite forallb_app, Hpass. simpl. by rewrite Hf.
      * repeat split; simpl; [| done | done].
        unfold set_add. destruct (set_has f (filters m)); [done |].
        rewrite length_app. simpl. unfold JSSet in *. lia.
    + split.
      * unfold filters_asked. simpl.
        rewrite (filters_asked_accepted react event _ _ _ _ eq_refl).
        exact Hlive.
      * simpl. unfold addToHistory. simpl.
        by destruct (Z.of_nat (length (eventHistory m ++ [event])) >? maxHistorySize m).
Qed.

Lemma filters_are_asked_in_registration_order_witness :
  addFilter 9%nat (addFilter 9%nat chat_hub) = addFilter 9%nat chat_hub /\
  exists w',
    emit idle pass 4 (sample 1) (start (addFilter 9%nat chat_hub))
    = Some (Normal tt, w') /\
    filters_asked w'
    = (if decide (9%nat ∈ set_live (filters chat_hub)) then set_live (filters chat_hub)
       else set_live (filters chat_hub) ++ [9%nat]) /\
    eventHistory (hub w') = eventHistory (addToHistory (sample 1) chat_hub).
Proof.
  apply (filters_are_asked_in_registration_order idle pass 4 (sample 1) chat_hub 9%nat).
  - reflexivity.
  - reflexivity.
  - reflexivity.
  - vm_compute. lia.
  - vm_compute. lia.
Defined.

(** An error without a code and without a stack. *)
Lemma error_code_has_a_default_witness :
  exists e d c,
    handle no_digits (bot_at 1000 origin) (SigError None "socket closed" None) registered
    = (registered, [e]) /\
    data e = Some d /\
    assoc "error" d = VStr "socket closed" /\
    assoc "code" d = VStr c /\ c <> "" /\
    (@None string = None \/ None = Some "" -> c = "Unknown error") /\
    (forall c0, None = Some c0 -> c0 <> "" -> c = c0) /\
    assoc "stack" d = optional VStr None.
Proof.
  apply (error_code_has_a_default no_digits (bot_at 1000 origin) None "socket closed"
           None registered).
Defined.
